(** * HPLC-signal: the peak pipeline of [peak_integration.py]

    A shallow embedding of [read_chromatogram], [peak_finder],
    [limits_finder] and [peak_integration], and the properties of the
    detection / boundary / integration pipeline that hold (or fail) on them.

    Modelling conventions.
    - The channel is a column of integers (detector counts), which pandas
      reads as an int64 array: a list of [Z].  The derivative columns and
      the array [find_peaks] works on are float64; on this path every
      float64 value is an integer, and it is represented by that integer.
      The wrap-around of int64 results ([wrap64]) and the rounding of
      float64 results ([to_float64]) are written out where the code
      computes them.  A channel of decimal numbers (a float64 column) is
      outside the embedding.
    - A Python exception is a value [Raise e] of [outcome]; code that can
      raise is written in the [outcome] monad.
    - numpy, pandas and scipy are not part of the repository.  Their
      functions are embedded from their documented behaviour, each one
      under its library name ([convolve], [find_peaks], ...).  The
      quadrature routine is a parameter [simpson] of the integration
      stage, since its float64 result is not computed here; the rule it
      applies is embedded in exact arithmetic as [scipy_simpson]. *)

From Stdlib Require Import ZArith QArith List Lia Bool Arith Floats Sorted.
From Equations Require Import Equations.
Import ListNotations.
Open Scope Z_scope.

(** ** Exceptions *)

Inductive pyexn : Type :=
| ValueError
| TypeError
| IndexError
| KeyError
| NameError
| BadReference  (* a reference outside the heap: it does not arise in Python *).

Inductive outcome (A : Type) : Type :=
| Ok (a : A)
| Raise (e : pyexn).

Arguments Ok {A} a.
Arguments Raise {A} e.

Definition bind {A B : Type} (c : outcome A) (k : A -> outcome B) : outcome B :=
  match c with
  | Ok a => k a
  | Raise e => Raise e
  end.

Notation "x <- c ;; k" := (bind c (fun x => k))
  (at level 61, c at next level, right associativity).

(** ** Python sequences *)

Definition len {A : Type} (l : list A) : Z := Z.of_nat (length l).

(** [l[j]]: a negative subscript counts from the end, a subscript outside
    the sequence raises [IndexError]. *)
Definition getitem (l : list Z) (j : Z) : outcome Z :=
  let k := if j <? 0 then j + len l else j in
  if (0 <=? k) && (k <? len l) then Ok (nth (Z.to_nat k) l 0) else Raise IndexError.

(** [range(a, b)], as the list of its values. *)
Definition range (a b : Z) : list Z :=
  map (fun k => a + Z.of_nat k) (seq 0 (Z.to_nat (b - a))).

(** [l[1:]]. *)
Definition drop1 {A : Type} (l : list A) : list A := tl l.

(** [l[a:b+1]] for [0 <= a]: the positions [a], ..., [b]. *)
Definition slice_incl {A : Type} (l : list A) (a b : Z) : list A :=
  firstn (Z.to_nat (b + 1 - a)) (skipn (Z.to_nat a) l).

(** [l[start:stop]], the positional slice of Python and of [.iloc]: a
    negative bound counts from the end, and bounds are clipped to the
    sequence. *)
Definition py_slice {A : Type} (l : list A) (start stop : Z) : list A :=
  let norm := fun i => if i <? 0 then Z.max (i + len l) 0 else Z.min i (len l) in
  firstn (Z.to_nat (norm stop - norm start)) (skipn (Z.to_nat (norm start)) l).


(** ** Machine numbers *)

(** An int64 result wraps around modulo [2^64]. *)
Definition wrap64 (z : Z) : Z := (z + 2 ^ 63) mod 2 ^ 64 - 2 ^ 63.

(** [z] rounded to the nearest multiple of [u], a tie going to the even
    multiple. *)
Definition round_half_even (u z : Z) : Z :=
  let q := z / u in
  let r := z mod u in
  if 2 * r <? u then q * u
  else if u <? 2 * r then (q + 1) * u
  else if Z.even q then q * u else (q + 1) * u.

(** The spacing of the float64 values around [z]: 1 up to [2^53], then
    doubling with every power of two (53 bits of mantissa). *)
Definition ulp (z : Z) : Z := 2 ^ Z.max 0 (Z.log2 (Z.abs z) - 52).

(** The float64 nearest to the integer [z] (round to nearest, ties to
    even).  The exponent range of float64 is not reached from int64 data. *)
Definition to_float64 (z : Z) : Z := round_half_even (ulp z) z.

Inductive dtype : Type :=
| int64
| float64.

(** Storing an exact result in an array of the given type. *)
Definition store (t : dtype) (z : Z) : Z :=
  match t with
  | int64 => wrap64 z
  | float64 => to_float64 z
  end.

(** ** numpy.convolve, mode 'full' *)

Fixpoint add_seq (a b : list Z) : list Z :=
  match a, b with
  | [], _ => b
  | _, [] => a
  | x :: a', y :: b' => (x + y) :: add_seq a' b'
  end.

(** The discrete linear convolution [out[k] = sum_j a[j] * v[k - j]]. *)
Fixpoint conv_full (a v : list Z) : list Z :=
  match a with
  | [] => []
  | x :: a' =>
      match a' with
      | [] => map (Z.mul x) v
      | _ => add_seq (map (Z.mul x) v) (0 :: conv_full a' v)
      end
  end.

(** [np.convolve(a, v)] on an array [a] of type [t] and a list [v] of
    integers: an empty operand raises [ValueError]; the result has the type
    of [a], each sum stored in it.  (For float64 the sum is rounded once,
    which is what the code computes for a kernel of two entries [1] and
    [-1]: two exact products and one addition.) *)
Definition convolve (t : dtype) (a v : list Z) : outcome (list Z) :=
  match a, v with
  | [], _ => Raise ValueError
  | _, [] => Raise ValueError
  | _, _ => Ok (map (store t) (conv_full a v))
  end.

(** [a / 1]: true division gives a float64 array; an int64 entry is
    converted, a float64 entry is unchanged. *)
Definition true_divide_1 (t : dtype) (a : list Z) : list Z :=
  match t with
  | int64 => map to_float64 a
  | float64 => a
  end.

(** ** The chromatogram table *)

(** The DataFrame returned by [read_chromatogram]: column 0 is the channel
    (int64), column 1 'First diff' and column 2 'Second diff' (float64). *)
Record chroma : Type := mk_chroma {
  channel : list Z;
  first_diff : list Z;
  second_diff : list Z
}.

(** [pd.DataFrame({...})] of three arrays: they must have one length. *)
Definition DataFrame3 (c0 c1 c2 : list Z) : outcome chroma :=
  if (length c0 =? length c1)%nat && (length c0 =? length c2)%nat
  then Ok (mk_chroma c0 c1 c2)
  else Raise ValueError.

(** [read_chromatogram], from the array [y] of the channel on (the csv
    parsing before it is input handling). *)
Definition read_chromatogram (y : list Z) : outcome chroma :=
  c <- convolve int64 y [1; -1] ;;
  let dy := true_divide_1 int64 c in
  c' <- convolve float64 (drop1 dy) [1; -1] ;;
  let ddy := true_divide_1 float64 c' in
  DataFrame3 y (drop1 dy) (drop1 ddy).

(** The forward difference, in exact arithmetic: entry [i] is
    [l[i+1] - l[i]], the last entry is [- l[n-1]] (the array is followed by
    an implicit 0). *)
Fixpoint forward_diff (l : list Z) : list Z :=
  match l with
  | [] => []
  | x :: l' =>
      match l' with
      | [] => [- x]
      | x' :: _ => (x' - x) :: forward_diff l'
      end
  end.

(** The difference operator as the specification words it: entry [0] is
    [l[0]] (the array is preceded by an implicit 0), entry [i] is
    [l[i] - l[i-1]]. *)
Fixpoint backward_diff_from (prev : Z) (l : list Z) : list Z :=
  match l with
  | [] => []
  | x :: l' => (x - prev) :: backward_diff_from x l'
  end.

Definition backward_diff (l : list Z) : list Z := backward_diff_from 0 l.

(** The two derivative columns as the machine stores them: the differences
    of the channel wrap in int64 and are then converted to float64; the
    differences of these are rounded to float64. *)
Definition first_derivative (y : list Z) : list Z :=
  map to_float64 (map wrap64 (forward_diff y)).

Definition second_derivative (y : list Z) : list Z :=
  map to_float64 (forward_diff (first_derivative y)).

(** The signals on which neither the wrap-around nor the rounding shows:
    every sample is at most [bound] in absolute value. *)
Definition within (bound : Z) (y : list Z) : Prop :=
  Forall (fun v => Z.abs v <= bound) y.

(** ** scipy.signal.find_peaks *)

(** [x[i]] for a position [i] inside the array. *)
Definition sample (x : list Z) (i : nat) : Z := nth i x 0.

(** The inner loop of [_local_maxima_1d]:
    [while i_ahead < i_max and x[i_ahead] == x[i]: i_ahead += 1]. *)
Equations? plateau_end (x : list Z) (i_max : nat) (xi : Z) (i_ahead : nat) : nat
  by wf (i_max - i_ahead)%nat lt :=
  plateau_end x i_max xi i_ahead with lt_dec i_ahead i_max => {
    | right _ := i_ahead;
    | left _ with (sample x i_ahead =? xi) => {
        | true := plateau_end x i_max xi (S i_ahead);
        | false := i_ahead } }.
Proof. lia. Qed.

Lemma plateau_end_ge x i_max xi i_ahead :
  (i_ahead <= plateau_end x i_max xi i_ahead)%nat.
Proof.
  funelim (plateau_end x i_max xi i_ahead); lia.
Qed.

(** The outer loop of [_local_maxima_1d], from sample [i] on: the midpoints
    of the plateaus that rise from the left and fall to the right. *)
Equations? lm_loop (x : list Z) (i_max i : nat) : list nat
  by wf (i_max - i)%nat lt :=
  lm_loop x i_max i with lt_dec i i_max => {
    | right _ := [];
    | left _ with (sample x (i - 1) <? sample x i) => {
        | false := lm_loop x i_max (S i);
        | true with (sample x (plateau_end x i_max (sample x i) (S i)) <? sample x i) => {
            | true := ((i + (plateau_end x i_max (sample x i) (S i) - 1)) / 2)%nat
                        :: lm_loop x i_max (S (plateau_end x i_max (sample x i) (S i)));
            | false := lm_loop x i_max (S i) } } }.
Proof.
  all: try lia.
  clear lm_loop.
  pose proof (plateau_end_ge x i_max (sample x i) (S i)). lia.
Qed.

Definition local_maxima_1d (x : list Z) : list nat :=
  lm_loop x (length x - 1) 1.

(** [x[peaks]] and [peaks[keep]]. *)
Definition take (x : list Z) (peaks : list nat) : list Z := map (sample x) peaks.

Definition mask_select {A : Type} (l : list A) (keep : list bool) : list A :=
  map fst (filter snd (combine l keep)).

(** [_select_by_property(x[peaks], hmin, None)]: the flags [hmin <= x[p]]. *)
Definition select_by_property (props : list Z) (pmin : Z) : list bool :=
  map (fun v => pmin <=? v) props.

(** [_select_by_peak_threshold(x, peaks, tmin, None)]: the smaller of the two
    vertical distances to the neighbouring samples, each a float64
    difference, is at least [tmin]. *)
Definition select_by_peak_threshold (x : list Z) (peaks : list nat) (tmin : Z) : list bool :=
  map (fun p => tmin <=? Z.min (to_float64 (sample x p - sample x (p - 1)))
                               (to_float64 (sample x p - sample x (p + 1)))) peaks.

(** [np.argsort(priority)]; equal priorities keep their order here (numpy
    leaves the order of ties open). *)
Fixpoint insert_by (priority : list Z) (j : nat) (order : list nat) : list nat :=
  match order with
  | [] => [j]
  | k :: order' =>
      if sample priority j <? sample priority k then j :: order
      else k :: insert_by priority j order'
  end.

Definition argsort (priority : list Z) : list nat :=
  fold_left (fun order j => insert_by priority j order) (seq 0 (length priority)) [].

(** [keep[k] = 0]. *)
Fixpoint clear (k : nat) (keep : list bool) : list bool :=
  match keep, k with
  | [], _ => []
  | _ :: keep', O => false :: keep'
  | b :: keep', S k' => b :: clear k' keep'
  end.

(** [k = j - 1; while 0 <= k and peaks[j] - peaks[k] < distance: keep[k] = 0; k -= 1],
    with [k] the number of peaks left of the current candidate. *)
Fixpoint flag_earlier (peaks : list nat) (distance pj k : nat) (keep : list bool) : list bool :=
  match k with
  | O => keep
  | S k' =>
      if (pj - nth k' peaks 0 <? distance)%nat
      then flag_earlier peaks distance pj k' (clear k' keep)
      else keep
  end.

(** [k = j + 1; while k < peaks_size and peaks[k] - peaks[j] < distance: keep[k] = 0; k += 1],
    with [n = peaks_size - k]. *)
Fixpoint flag_later (peaks : list nat) (distance pj n k : nat) (keep : list bool) : list bool :=
  match n with
  | O => keep
  | S n' =>
      if (nth k peaks 0 - pj <? distance)%nat
      then flag_later peaks distance pj n' (S k) (clear k keep)
      else keep
  end.

(** [_select_by_peak_distance]: peaks are visited from the highest priority
    down; a peak still kept removes its neighbours closer than [distance]. *)
Definition select_by_peak_distance (peaks : list nat) (priority : list Z) (distance : nat)
  : list bool :=
  fold_left
    (fun keep j =>
       if nth j keep false
       then flag_later peaks distance (nth j peaks 0%nat) (length peaks - S j) (S j)
              (flag_earlier peaks distance (nth j peaks 0%nat) j keep)
       else keep)
    (rev (argsort priority))
    (repeat true (length peaks)).

(** [find_peaks(x, height=height, threshold=threshold, distance=distance)] with
    scalar conditions; the result is [(peaks, properties["peak_heights"])].
    The array is first converted to float64 ([_arg_x_as_expected]). *)
Definition find_peaks (x : list Z) (height threshold distance : Z)
  : outcome (list nat * list Z) :=
  let x := map to_float64 x in
  if distance <? 1 then Raise ValueError
  else
    let peaks := local_maxima_1d x in
    let peaks := mask_select peaks (select_by_property (take x peaks) height) in
    let peaks := mask_select peaks (select_by_peak_threshold x peaks threshold) in
    let peaks :=
      mask_select peaks (select_by_peak_distance peaks (take x peaks) (Z.to_nat distance)) in
    Ok (peaks, take x peaks).

(** ** Peak tables *)

(** An interval [[start, end]] as the caller gives it; the dictionary key
    [str(interval)] is the interval itself. *)
Definition interval : Type := (Z * Z)%type.

Definition interval_eqb (a b : interval) : bool :=
  (fst a =? fst b) && (snd a =? snd b).

(** A row [(index, height)] of the table of peaks; the height is the
    float64 sample. *)
Definition peak : Type := (Z * Z)%type.

Definition index (pk : peak) : Z := fst pk.
Definition height (pk : peak) : Z := snd pk.

(** The row filter of [peak_finder]:
    [(pre.iloc[:, 0] > interval[0]) & (pre.iloc[:, 0] < interval[1])]. *)
Definition in_interval (iv : interval) (pk : peak) : bool :=
  (fst iv <? index pk) && (index pk <? snd iv).

(** One side of a peak's limits: the string ["None"] it is preset to, or
    the number the scan stored. *)
Inductive limit : Type :=
| NoneStr
| Num (v : Z).

(** The DataFrame of the peaks of one interval: columns 'index' and 'height',
    then 'limits idx' and 'limits val' once [limits_finder] has set them,
    then 'Area' once [peak_integration] has. *)
Inductive extra_columns : Type :=
| no_extra
| with_limits (limits_idx limits_val : list (limit * limit)) (area : option (list float)).

Record peaks_frame : Type := mk_peaks {
  pk_rows : list peak;
  pk_extra : extra_columns
}.

(** ** Python dictionaries, in insertion order *)

Fixpoint dict_set {V : Type} (d : list (interval * V)) (k : interval) (v : V)
  : list (interval * V) :=
  match d with
  | [] => [(k, v)]
  | (k', v') :: d' =>
      if interval_eqb k k' then (k, v) :: d' else (k', v') :: dict_set d' k v
  end.

Fixpoint dict_get {V : Type} (d : list (interval * V)) (k : interval) : option V :=
  match d with
  | [] => None
  | (k', v') :: d' => if interval_eqb k k' then Some v' else dict_get d' k
  end.

Definition keys {V : Type} (d : list (interval * V)) : list interval := map fst d.

(** ** The boundary search of [limits_finder] *)

Definition width : Z := 5.

(** One [for j in ...: if abs(dy[j]) < min_slope: ...; break] loop over the
    positions [js]: the pair (limit index, limit value) it leaves. *)
Fixpoint scan (y dy : list Z) (min_slope : Z) (js : list Z) : outcome (limit * limit) :=
  match js with
  | [] => Ok (NoneStr, NoneStr)
  | j :: js' =>
      d <- getitem dy j ;;
      if Z.abs d <? min_slope
      then v <- getitem y j ;; Ok (Num j, Num v)
      else scan y dy min_slope js'
  end.

(** The body of the loop over the peaks, for the peak at [p]: the forward
    scan, then the backward scan; the result is [(limit_idx, limit_val)]. *)
Definition peak_limits (y dy : list Z) (min_slope p : Z)
  : outcome ((limit * limit) * (limit * limit)) :=
  r <- scan y dy min_slope (range (p + width) (len dy)) ;;
  l <- scan y dy min_slope (rev (range 0 (p - width))) ;;
  Ok ((fst l, fst r), (snd l, snd r)).

(** The loop over the peaks of one interval: [(limits_idx, limits_val)]. *)
Fixpoint frame_limits (y dy : list Z) (min_slope : Z) (peak_idx : list Z)
  : outcome (list (limit * limit) * list (limit * limit)) :=
  match peak_idx with
  | [] => Ok ([], [])
  | p :: rest =>
      lim <- peak_limits y dy min_slope p ;;
      lims <- frame_limits y dy min_slope rest ;;
      Ok (fst lim :: fst lims, snd lim :: snd lims)
  end.

(** ** The sample selection of [peak_integration] *)

(** [points > limit] and [points < limit]: element by element against a
    number, a [TypeError] against the string ["None"]. *)
Definition greater (points : list Z) (l : limit) : outcome (list bool) :=
  match l with
  | NoneStr => Raise TypeError
  | Num k => Ok (map (fun v => k <? v) points)
  end.

Definition less (points : list Z) (l : limit) : outcome (list bool) :=
  match l with
  | NoneStr => Raise TypeError
  | Num k => Ok (map (fun v => v <? k) points)
  end.

Definition mask_and (a b : list bool) : list bool :=
  map (fun ab => fst ab && snd ab) (combine a b).

(** [points[(points > limit[0]) & (points < limit[1])]]. *)
Definition select_samples (points : list Z) (lim : limit * limit) : outcome (list Z) :=
  gt <- greater points (fst lim) ;;
  lt <- less points (snd lim) ;;
  Ok (mask_select points (mask_and gt lt)).

(** ** The heap: DataFrames and dictionaries are objects *)

Record heap : Type := mk_heap {
  chromas : list chroma;
  frames : list peaks_frame;
  dicts : list (list (interval * nat))
}.

Definition empty_heap : heap := mk_heap [] [] [].

(** A computation that reads and writes the heap and may raise; what it
    wrote before raising stays written. *)
Definition py (A : Type) : Type := heap -> outcome A * heap.

Definition ret {A : Type} (a : A) : py A := fun h => (Ok a, h).

Definition lift {A : Type} (o : outcome A) : py A := fun h => (o, h).

Definition pbind {A B : Type} (c : py A) (k : A -> py B) : py B :=
  fun h =>
    match c h with
    | (Ok a, h') => k a h'
    | (Raise e, h') => (Raise e, h')
    end.

Notation "x <~ c ;; k" := (pbind c (fun x => k))
  (at level 61, c at next level, right associativity).

Fixpoint for_each {A : Type} (l : list A) (body : A -> py unit) : py unit :=
  match l with
  | [] => ret tt
  | a :: l' => _ <~ body a ;; for_each l' body
  end.

Definition deref {A : Type} (o : option A) (e : pyexn) : py A :=
  match o with
  | Some a => ret a
  | None => lift (Raise e)
  end.

Fixpoint update {A : Type} (l : list A) (r : nat) (a : A) : list A :=
  match l, r with
  | [], _ => []
  | _ :: l', O => a :: l'
  | b :: l', S r' => b :: update l' r' a
  end.

Definition get_chroma (r : nat) : py chroma :=
  fun h => deref (nth_error (chromas h) r) BadReference h.

Definition get_frame (r : nat) : py peaks_frame :=
  fun h => deref (nth_error (frames h) r) BadReference h.

Definition get_dict (r : nat) : py (list (interval * nat)) :=
  fun h => deref (nth_error (dicts h) r) BadReference h.

Definition new_chroma (c : chroma) : py nat :=
  fun h => (Ok (length (chromas h)), mk_heap (chromas h ++ [c]) (frames h) (dicts h)).

Definition new_frame (f : peaks_frame) : py nat :=
  fun h => (Ok (length (frames h)), mk_heap (chromas h) (frames h ++ [f]) (dicts h)).

Definition new_dict : py nat :=
  fun h => (Ok (length (dicts h)), mk_heap (chromas h) (frames h) (dicts h ++ [[]])).

Definition set_frame (r : nat) (f : peaks_frame) : py unit :=
  fun h => (Ok tt, mk_heap (chromas h) (update (frames h) r f) (dicts h)).

(** [d[k]] and [d[k] = v] on the dictionary object [d]. *)
Definition dict_getitem (d : nat) (k : interval) : py nat :=
  entries <~ get_dict d ;; deref (dict_get entries k) KeyError.

Definition dict_setitem (d : nat) (k : interval) (v : nat) : py unit :=
  entries <~ get_dict d ;;
  fun h => (Ok tt, mk_heap (chromas h) (frames h) (update (dicts h) d (dict_set entries k v))).

(** ** The stages *)

(** [read_chromatogram] as a stage: the table is a new object. *)
Definition read_chromatogram_stage (y : list Z) : py nat :=
  c <~ lift (read_chromatogram y) ;; new_chroma c.

(** The detection parameters fixed in [peak_finder]. *)
Definition min_height : Z := 4000.
Definition min_threshold : Z := 1.
Definition min_distance : Z := 2.

(** [pre_peak_data]: the table of all peaks of the chromatogram. *)
Definition pre_peak_data (x : list Z) : outcome (list peak) :=
  found <- find_peaks x min_height min_threshold min_distance ;;
  Ok (combine (map Z.of_nat (fst found)) (snd found)).

(** [peak_finder(data, intervals)]: a new dictionary with, under each
    interval, a new table of the peaks strictly inside it.  (The parameter
    [image] is not read.) *)
Definition peak_finder (data : nat) (intervals : list interval) : py nat :=
  c <~ get_chroma data ;;
  pre <~ lift (pre_peak_data (channel c)) ;;
  post_peak_data <~ new_dict ;;
  _ <~ for_each intervals (fun iv =>
         r <~ new_frame (mk_peaks (filter (in_interval iv) pre) no_extra) ;;
         dict_setitem post_peak_data iv r) ;;
  ret post_peak_data.

(** One pass of the loop of [limits_finder] over the keys of [peaks_data]:
    the table under [key] gets (or gets again) its limits columns. *)
Definition limits_body (y dy : list Z) (min_slope : Z) (peaks_data : nat)
    (key : interval) : py unit :=
  r <~ dict_getitem peaks_data key ;;
  peaks_info <~ get_frame r ;;
  lims <~ lift (frame_limits y dy min_slope (map index (pk_rows peaks_info))) ;;
  let area :=
    match pk_extra peaks_info with
    | no_extra => None
    | with_limits _ _ a => a
    end in
  _ <~ set_frame r (mk_peaks (pk_rows peaks_info)
                      (with_limits (fst lims) (snd lims) area)) ;;
  dict_setitem peaks_data key r.

(** [limits_finder(chroma_data, peaks_data, intervals, min_slope)]: the
    tables of [peaks_data] get their limits columns, and [peaks_data] itself
    is returned.  (The parameters [intervals] and [image] are not read.) *)
Definition limits_finder (chroma_data peaks_data : nat) (min_slope : Z) : py nat :=
  c <~ get_chroma chroma_data ;;
  let y := channel c in
  let dy := map Z.abs (first_diff c) in
  entries <~ get_dict peaks_data ;;
  _ <~ for_each (keys entries) (limits_body y dy min_slope peaks_data) ;;
  ret peaks_data.

Section Integration.

(** [scipy.integrate.simpson(y, x=None, dx=1.0, axis=-1, even=None)]: the
    quadrature routine, in float64, is scipy's. *)
Variable simpson : list Z -> outcome float.

(** The loop over the limits of one table: [areas]. *)
Fixpoint frame_areas (points : list Z) (limits_list : list (limit * limit))
  : outcome (list float) :=
  match limits_list with
  | [] => Ok []
  | lim :: rest =>
      y <- select_samples points lim ;;
      a <- simpson y ;;
      areas <- frame_areas points rest ;;
      Ok (a :: areas)
  end.

(** One pass of the loop of [peak_integration] over the keys of
    [peaks_data]: the table under [interval] gets its 'Area' column. *)
Definition integration_body (points : list Z) (peaks_data : nat)
    (interval : interval) : py unit :=
  r <~ dict_getitem peaks_data interval ;;
  peaks_info <~ get_frame r ;;
  match pk_extra peaks_info with
  | no_extra => lift (Raise IndexError)
  | with_limits limits_list limits_val _ =>
      areas <~ lift (frame_areas points limits_list) ;;
      _ <~ set_frame r (mk_peaks (pk_rows peaks_info)
                          (with_limits limits_list limits_val (Some areas))) ;;
      dict_setitem peaks_data interval r
  end.

(** [peak_integration(chroma_data, peaks_info)].  The body works on the
    module-level name [peaks_data] ([global_peaks_data], unbound when
    [None]); its parameter [peaks_info] is not read. *)
Definition peak_integration (global_peaks_data : option nat)
    (chroma_data peaks_info : nat) : py nat :=
  c <~ get_chroma chroma_data ;;
  let points := channel c in
  peaks_data <~ deref global_peaks_data NameError ;;
  entries <~ get_dict peaks_data ;;
  _ <~ for_each (keys entries) (integration_body points peaks_data) ;;
  ret peaks_data.

(** The module-level script, from the channel array [y] on: each stage is
    called with the results bound before it, [limits_finder] with
    [min_slope=5]. *)
Definition script (y : list Z) (intervals : list interval) : py nat :=
  chroma_data <~ read_chromatogram_stage y ;;
  peaks_data <~ peak_finder chroma_data intervals ;;
  peaks_data <~ limits_finder chroma_data peaks_data 5 ;;
  peak_integration (Some peaks_data) chroma_data peaks_data.

End Integration.

(** ** scipy.integrate.simpson *)

(** The routine as SciPy 1.11 to 1.13 define it for the arguments of the
    call in [peak_integration] ([x=None], [axis=-1], [even=None], which
    selects the method 'simpson'), on a one-dimensional int64 array.  The
    result is given in exact arithmetic, as a rational: the float64
    rounding of the sums and products is not embedded. *)








(** [peaks_data[k]], the table a dictionary object holds under the key [k],
    if any. *)
Definition table_of (h : heap) (d : nat) (k : interval) : option peaks_frame :=
  match nth_error (dicts h) d with
  | None => None
  | Some entries =>
      match dict_get entries k with
      | None => None
      | Some r => nth_error (frames h) r
      end
  end.

(** ** Two chromatograms to run the stages on *)

(** One peak of height 5000 at position 11, on a flat baseline of 10. *)
Definition spike : list Z :=
  repeat 10 10 ++ [2000; 5000; 2000] ++ repeat 10 11.

(** The same peak at position 3, closer to the start than [width]. *)
Definition edge_spike : list Z :=
  repeat 10 2 ++ [2000; 5000; 2000] ++ repeat 10 7.


(** A peak with slopes that die out slowly to the right. *)
Definition tailing_peak : list Z :=
  repeat 10 10 ++ [2000; 5000; 2000; 1000; 500; 250; 125; 60; 30; 20; 14; 12; 11; 10; 10; 10].

Definition spike_chroma : chroma :=
  mk_chroma spike (forward_diff spike) (forward_diff (forward_diff spike)).

(** The heap once [read_chromatogram] has returned the table of [spike]. *)
Definition spike_heap : heap := mk_heap [spike_chroma] [] [].

(** The heap once [peak_finder] has returned for the interval [[0, 20]], and
    once [limits_finder] has, with [min_slope=5]. *)
Definition spike_found : heap := snd (peak_finder 0 [(0, 20)] spike_heap).

Definition spike_limited : heap := snd (limits_finder 0 0 5 spike_found).

(** The stages before the integration, on a signal [y], as the script calls
    them. *)
Definition before_integration (y : list Z) (intervals : list interval) (min_slope : Z)
  : py nat :=
  chroma_data <~ read_chromatogram_stage y ;;
  peaks_data <~ peak_finder chroma_data intervals ;;
  limits_finder chroma_data peaks_data min_slope.

(** ** The shaded region of [plot_results] *)

(** The vertices of the polygon that [plot_results] shades for one pair of
    numeric limits [a] and [b] (lines 278-285),
    [[(a, 0), *zip(range(a, b + 1), signal[a : b + 1]), (b, 0)]].  A pair
    with the string ["None"] on a side is outside this definition: such a
    pair is handed to [plt.scatter] first (lines 270-273), and what
    matplotlib does with it is not embedded.  (The drawing itself is
    matplotlib's too.) *)
Definition area_polygon (signal : list Z) (a b : Z) : list (Z * Z) :=
  (a, 0) :: combine (range a (b + 1)) (py_slice signal a (b + 1)) ++ [(b, 0)].

(** ** Predicates on the heap and on the limits *)

(** The part of the heap that [limits_finder] and [peak_integration] never
    change: the chromatogram tables, the dictionaries, and the rows of every
    table of peaks. *)
Definition same_rows (h h' : heap) : Prop :=
  chromas h' = chromas h /\ dicts h' = dicts h /\
  map pk_rows (frames h') = map pk_rows (frames h).

(** The table has its 'limits idx' and 'limits val' columns. *)
Definition has_limits (f : peaks_frame) : Prop :=
  exists limits_idx limits_val area, pk_extra f = with_limits limits_idx limits_val area.

(** The table has its 'Area' column as well. *)
Definition has_area (f : peaks_frame) : Prop :=
  exists limits_idx limits_val areas,
    pk_extra f = with_limits limits_idx limits_val (Some areas).

(** The limits columns of a table are those of its rows: what the loop over
    the peaks computes from them. *)
Definition limits_of (y dy : list Z) (min_slope : Z) (f : peaks_frame) : Prop :=
  exists lims area,
    frame_limits y dy min_slope (map index (pk_rows f)) = Ok lims /\
    pk_extra f = with_limits (fst lims) (snd lims) area.

(** One side of a peak's limits after a scan of the positions [from <= j < to],
    taken upward ([upward = true]) or downward: either both entries are
    ["None"] and no position of the scan has a slope below [min_slope], or
    they are the first such position met and the signal value there. *)
Definition side_found (y dy : list Z) (min_slope from to : Z) (upward : bool)
    (limit_idx limit_val : limit) : Prop :=
  (limit_idx = NoneStr /\ limit_val = NoneStr /\
   forall j, from <= j < to -> min_slope <= Z.abs (nth (Z.to_nat j) dy 0)) \/
  (exists j,
     limit_idx = Num j /\ limit_val = Num (nth (Z.to_nat j) y 0) /\
     from <= j < to /\
     Z.abs (nth (Z.to_nat j) dy 0) < min_slope /\
     forall k, from <= k < to -> (if upward then k < j else j < k) ->
               min_slope <= Z.abs (nth (Z.to_nat k) dy 0)).

(** The tables of a dictionary hold positions of the signal only. *)
Definition rows_inside (h : heap) (entries : list (interval * nat)) (n : Z) : Prop :=
  forall k r, dict_get entries k = Some r ->
    exists rows, nth_error (map pk_rows (frames h)) r = Some rows /\
                 forall pk, In pk rows -> 0 <= index pk < n.

(** A table with its limits columns and no peak in it. *)
Definition no_peak (f : peaks_frame) : Prop :=
  pk_rows f = [] /\ exists lv a, pk_extra f = with_limits [] lv a.

(** The limits columns of a table, when it has them. *)
Definition limits_columns (f : peaks_frame)
  : option (list (limit * limit) * list (limit * limit)) :=
  match pk_extra f with
  | no_extra => None
  | with_limits limits_idx limits_val _ => Some (limits_idx, limits_val)
  end.

(** The 'Area' column of a table, when it has one. *)
Definition area_column (f : peaks_frame) : option (list float) :=
  match pk_extra f with
  | no_extra => None
  | with_limits _ _ area => area
  end.

(** * Properties *)

(** ** Machine numbers *)

Lemma wrap64_small (z : Z) : - 2 ^ 63 <= z < 2 ^ 63 -> wrap64 z = z.
Proof.
  intros Hz. unfold wrap64. rewrite Z.mod_small; lia.
Qed.

Lemma ulp_pos (z : Z) : 0 < ulp z.
Proof. unfold ulp. apply Z.pow_pos_nonneg; lia. Qed.

Lemma round_half_even_cases (u z : Z) :
  round_half_even u z = (z / u) * u \/ round_half_even u z = (z / u + 1) * u.
Proof.
  unfold round_half_even.
  destruct (2 * (z mod u) <? u); [left; reflexivity|].
  destruct (u <? 2 * (z mod u)); [right; reflexivity|].
  destruct (Z.even (z / u)); [left | right]; reflexivity.
Qed.

Lemma round_half_even_multiple (u k : Z) : 0 < u -> round_half_even u (k * u) = k * u.
Proof.
  intros Hu. unfold round_half_even.
  rewrite Z.mod_mul, Z.div_mul by lia.
  destruct (Z.ltb_spec (2 * 0) u); [reflexivity | lia].
Qed.

(** Rounding does not step over a multiple of the unit. *)
Lemma round_half_even_le_multiple (u k z : Z) :
  0 < u -> z <= k * u -> round_half_even u z <= k * u.
Proof.
  intros Hu Hz.
  destruct (Z.eq_dec z (k * u)) as [->|Hne].
  - rewrite round_half_even_multiple by exact Hu. lia.
  - assert (Hq : z / u < k) by (apply Z.div_lt_upper_bound; lia).
    destruct (round_half_even_cases u z) as [-> | ->]; nia.
Qed.

Lemma round_half_even_ge_multiple (u k z : Z) :
  0 < u -> k * u <= z -> k * u <= round_half_even u z.
Proof.
  intros Hu Hz.
  assert (Hq : k <= z / u) by (apply Z.div_le_lower_bound; lia).
  destruct (round_half_even_cases u z) as [-> | ->]; nia.
Qed.

Lemma round_half_even_mono (u x y : Z) :
  0 < u -> x <= y -> round_half_even u x <= round_half_even u y.
Proof.
  intros Hu Hxy.
  assert (Hq : x / u <= y / u) by (apply Z.div_le_mono; lia).
  destruct (Z.eq_dec (x / u) (y / u)) as [Heq | Hne].
  - pose proof (Z.div_mod x u ltac:(lia)) as Hx.
    pose proof (Z.div_mod y u ltac:(lia)) as Hy.
    pose proof (Z.mod_pos_bound x u Hu) as Hrx.
    pose proof (Z.mod_pos_bound y u Hu) as Hry.
    assert (Hr : x mod u <= y mod u) by (rewrite Heq in Hx; nia).
    unfold round_half_even. rewrite Heq.
    destruct (Z.ltb_spec (2 * (x mod u)) u), (Z.ltb_spec (2 * (y mod u)) u);
      destruct (Z.ltb_spec u (2 * (x mod u))), (Z.ltb_spec u (2 * (y mod u)));
      destruct (Z.even (y / u)); nia.
  - apply Z.le_trans with ((x / u + 1) * u).
    + destruct (round_half_even_cases u x) as [-> | ->]; nia.
    + apply round_half_even_ge_multiple; [exact Hu|].
      pose proof (Z.mul_div_le y u Hu). nia.
Qed.

Lemma to_float64_small (z : Z) : Z.abs z <= 2 ^ 53 -> to_float64 z = z.
Proof.
  intros Hz. unfold to_float64.
  destruct (Z.eq_dec (Z.abs z) (2 ^ 53)) as [Heq | Hne].
  - unfold ulp. rewrite Heq. change (Z.log2 (2 ^ 53)) with 53.
    change (2 ^ Z.max 0 (53 - 52)) with 2.
    assert (Hz2 : z = 2 ^ 52 * 2 \/ z = (- 2 ^ 52) * 2) by lia.
    destruct Hz2 as [-> | ->]; apply round_half_even_multiple; lia.
  - assert (Hu : ulp z = 1).
    { unfold ulp.
      destruct (Z.eq_dec z 0) as [->|Hz0]; [reflexivity|].
      assert (Hlog : Z.log2 (Z.abs z) < 53) by (apply Z.log2_lt_pow2; lia).
      rewrite Z.max_l by lia. reflexivity. }
    rewrite Hu. pose proof (round_half_even_multiple 1 z ltac:(lia)) as H.
    rewrite Z.mul_1_r in H. exact H.
Qed.

Lemma ulp_divides_pow2 (z : Z) (k : Z) :
  52 <= k -> Z.log2 (Z.abs z) <= k -> exists j, 2 ^ k = j * ulp z.
Proof.
  intros Hk Hlog. unfold ulp.
  set (e := Z.max 0 (Z.log2 (Z.abs z) - 52)).
  assert (He : 0 <= e <= k) by (pose proof (Z.log2_nonneg (Z.abs z)); lia).
  exists (2 ^ (k - e)). rewrite <- Z.pow_add_r by lia. f_equal. lia.
Qed.

Lemma to_float64_nonneg_mono (x y : Z) :
  0 <= x <= y -> to_float64 x <= to_float64 y.
Proof.
  intros [Hx Hxy]. unfold to_float64.
  assert (Hlog : Z.log2 (Z.abs x) <= Z.log2 (Z.abs y)) by (apply Z.log2_le_mono; lia).
  destruct (Z.eq_dec (ulp x) (ulp y)) as [Hu | Hu].
  - rewrite Hu. apply round_half_even_mono; [apply ulp_pos | exact Hxy].
  - set (k := Z.log2 (Z.abs y)) in *.
    assert (Hk : 52 < k /\ Z.log2 (Z.abs x) < k).
    { unfold ulp in Hu. 
      destruct (Z.eq_dec (Z.log2 (Z.abs x)) k) as [E|E];
        [exfalso; apply Hu; rewrite E; reflexivity|].
      split; [|lia].
      destruct (Z_lt_le_dec 52 k); [assumption|].
      rewrite !Z.max_l in Hu by lia. lia. }
    destruct Hk as [Hk Hlt].
    assert (Hxm : x < 2 ^ k).
    { destruct (Z.eq_dec x 0) as [->|]; [apply Z.pow_pos_nonneg; lia|].
      apply Z.log2_lt_pow2; [lia|]. rewrite Z.abs_eq in Hlt by lia. exact Hlt. }
    assert (Hmy : 2 ^ k <= y).
    { assert (0 < y).
      { destruct (Z.eq_dec y 0) as [E0|]; [|lia]. exfalso. unfold k in Hk.
        rewrite E0 in Hk. cbn in Hk. lia. }
      pose proof (Z.log2_spec y ltac:(lia)) as Hs.
      unfold k. rewrite Z.abs_eq by lia. lia. }
    destruct (ulp_divides_pow2 x k ltac:(lia) ltac:(lia)) as [jx Hjx].
    destruct (ulp_divides_pow2 y k ltac:(lia) ltac:(unfold k; lia)) as [jy Hjy].
    apply Z.le_trans with (2 ^ k).
    + rewrite Hjx. apply round_half_even_le_multiple; [apply ulp_pos | lia].
    + rewrite Hjy. apply round_half_even_ge_multiple; [apply ulp_pos | lia].
Qed.

Lemma to_float64_nonpos_mono (x y : Z) :
  x <= y <= 0 -> to_float64 x <= to_float64 y.
Proof.
  intros [Hxy Hy]. unfold to_float64.
  assert (Hlog : Z.log2 (Z.abs y) <= Z.log2 (Z.abs x)) by (apply Z.log2_le_mono; lia).
  destruct (Z.eq_dec (ulp x) (ulp y)) as [Hu | Hu].
  - rewrite Hu. apply round_half_even_mono; [apply ulp_pos | exact Hxy].
  - set (k := Z.log2 (Z.abs x)) in *.
    assert (Hk : 52 < k /\ Z.log2 (Z.abs y) < k).
    { unfold ulp in Hu.
      destruct (Z.eq_dec (Z.log2 (Z.abs y)) k) as [E|E];
        [exfalso; apply Hu; rewrite E; reflexivity|].
      split; [|lia].
      destruct (Z_lt_le_dec 52 k); [assumption|].
      rewrite !Z.max_l in Hu by lia. lia. }
    destruct Hk as [Hk Hlt].
    assert (Hym : - 2 ^ k < y).
    { destruct (Z.eq_dec y 0) as [->|]; [pose proof (Z.pow_pos_nonneg 2 k); lia|].
      assert (Z.abs y < 2 ^ k) by (apply Z.log2_lt_pow2; lia). lia. }
    assert (Hmx : x <= - 2 ^ k).
    { assert (0 < Z.abs x).
      { destruct (Z.eq_dec x 0) as [E0|]; [|lia]. exfalso. unfold k in Hk.
        rewrite E0 in Hk. cbn in Hk. lia. }
      pose proof (Z.log2_spec (Z.abs x) ltac:(lia)) as Hs.
      fold k in Hs. lia. }
    destruct (ulp_divides_pow2 x k ltac:(lia) ltac:(unfold k; lia)) as [jx Hjx].
    destruct (ulp_divides_pow2 y k ltac:(lia) ltac:(lia)) as [jy Hjy].
    apply Z.le_trans with (- 2 ^ k).
    + replace (- 2 ^ k) with ((- jx) * ulp x) by lia.
      apply round_half_even_le_multiple; [apply ulp_pos | lia].
    + replace (- 2 ^ k) with ((- jy) * ulp y) by lia.
      apply round_half_even_ge_multiple; [apply ulp_pos | lia].
Qed.

Lemma to_float64_0 : to_float64 0 = 0.
Proof. reflexivity. Qed.

Lemma to_float64_mono (x y : Z) : x <= y -> to_float64 x <= to_float64 y.
Proof.
  intros Hxy.
  destruct (Z_le_gt_dec 0 x) as [Hx | Hx].
  - apply to_float64_nonneg_mono. lia.
  - destruct (Z_le_gt_dec y 0) as [Hy | Hy].
    + apply to_float64_nonpos_mono. lia.
    + apply Z.le_trans with (to_float64 0).
      * apply to_float64_nonpos_mono. lia.
      * apply to_float64_nonneg_mono. lia.
Qed.

Lemma to_float64_lt (x y : Z) : to_float64 x < to_float64 y -> x < y.
Proof.
  intros H. destruct (Z_lt_le_dec x y) as [|Hle]; [assumption|].
  apply to_float64_mono in Hle. lia.
Qed.

Lemma to_float64_ge_small (c z : Z) :
  0 <= c <= 2 ^ 53 -> (c <= to_float64 z <-> c <= z).
Proof.
  intros Hc. split; intros H.
  - destruct (Z_le_gt_dec c z) as [|Hgt]; [assumption|].
    assert (Hle : z <= c - 1) by lia. apply to_float64_mono in Hle.
    rewrite (to_float64_small (c - 1)) in Hle by lia. lia.
  - apply to_float64_mono in H. rewrite (to_float64_small c) in H by lia. exact H.
Qed.

Lemma sample_to_float64 (x : list Z) (i : nat) :
  sample (map to_float64 x) i = to_float64 (sample x i).
Proof.
  unfold sample. rewrite <- to_float64_0 at 1. apply map_nth.
Qed.

Lemma within_nth (b : Z) (y : list Z) (i : nat) :
  0 <= b -> within b y -> Z.abs (nth i y 0) <= b.
Proof.
  intros Hb Hy. destruct (Nat.lt_ge_cases i (length y)) as [Hi | Hi].
  - unfold within in Hy. rewrite Forall_forall in Hy. apply Hy, nth_In, Hi.
  - rewrite nth_overflow by exact Hi. cbn. exact Hb.
Qed.

Lemma map_to_float64_within (l : list Z) : within (2 ^ 53) l -> map to_float64 l = l.
Proof.
  induction 1 as [|v l Hv _ IH]; [reflexivity|].
  cbn [map]. rewrite IH, to_float64_small by exact Hv. reflexivity.
Qed.

Lemma map_wrap64_within (l : list Z) : within (2 ^ 53) l -> map wrap64 l = l.
Proof.
  induction 1 as [|v l Hv _ IH]; [reflexivity|].
  cbn [map]. rewrite IH, wrap64_small; [reflexivity|].
  assert (2 ^ 53 < 2 ^ 63) by reflexivity. lia.
Qed.

(** ** The derivative columns *)

Lemma conv_full_diff (x : Z) (l : list Z) :
  conv_full (x :: l) [1; -1] = x :: forward_diff (x :: l).
Proof.
  revert x. induction l as [|x' l IH]; intros x.
  - simpl. f_equal; [lia | f_equal; lia].
  - change (conv_full (x :: x' :: l) [1; -1])
      with (add_seq (map (Z.mul x) [1; -1]) (0 :: conv_full (x' :: l) [1; -1])).
    rewrite IH. simpl. f_equal; [lia | f_equal; lia].
Qed.

Lemma forward_diff_length (l : list Z) : length (forward_diff l) = length l.
Proof.
  induction l as [|x [|x' l] IH]; simpl in *; auto.
Qed.

Lemma forward_diff_nth (l : list Z) (i : nat) :
  (S i < length l)%nat -> nth i (forward_diff l) 0 = nth (S i) l 0 - nth i l 0.
Proof.
  revert i. induction l as [|x [|x' l] IH]; intros i Hi; simpl in Hi; try lia.
  destruct i as [|i]; [reflexivity|].
  change (nth i (forward_diff (x' :: l)) 0 = nth (S i) (x' :: l) 0 - nth i (x' :: l) 0).
  apply IH. simpl. lia.
Qed.

Lemma forward_diff_last (l : list Z) :
  l <> [] -> nth (length l - 1) (forward_diff l) 0 = - nth (length l - 1) l 0.
Proof.
  induction l as [|x [|x' l] IH]; intros Hne; [congruence | reflexivity |].
  assert (Hlen : (length (x :: x' :: l) - 1 = S (length (x' :: l) - 1))%nat)
    by (simpl; lia).
  rewrite Hlen.
  change (nth (length (x' :: l) - 1) (forward_diff (x' :: l)) 0
          = - nth (length (x' :: l) - 1) (x' :: l) 0).
  apply IH. discriminate.
Qed.

Lemma forward_diff_nonempty (l : list Z) : l <> [] -> forward_diff l <> [].
Proof. destruct l as [|x [|x' l]]; simpl; congruence. Qed.

Lemma forward_diff_within (b : Z) (l : list Z) :
  0 <= b -> within b l -> within (2 * b) (forward_diff l).
Proof.
  intros Hb. induction l as [|x [|x' l] IH]; intros Hl.
  - constructor.
  - inversion Hl; subst. constructor; [lia | constructor].
  - inversion Hl as [|? ? Hx Hl']; subst. inversion Hl' as [|? ? Hx' _]; subst.
    change (forward_diff (x :: x' :: l)) with ((x' - x) :: forward_diff (x' :: l)).
    constructor; [lia | apply IH; exact Hl'].
Qed.

Lemma first_derivative_length (y : list Z) : length (first_derivative y) = length y.
Proof. unfold first_derivative. rewrite !length_map. apply forward_diff_length. Qed.

Lemma second_derivative_length (y : list Z) : length (second_derivative y) = length y.
Proof.
  unfold second_derivative.
  rewrite length_map, forward_diff_length. apply first_derivative_length.
Qed.

(** Up to [2^52] the differences of the channel are stored exactly, and up
    to [2^51] so are their differences. *)
Lemma first_derivative_exact (y : list Z) :
  within (2 ^ 52) y -> first_derivative y = forward_diff y.
Proof.
  intros Hy. apply (forward_diff_within (2 ^ 52)) in Hy; [|lia].
  change (2 * 2 ^ 52) with (2 ^ 53) in Hy.
  unfold first_derivative. rewrite map_wrap64_within by exact Hy.
  apply map_to_float64_within. exact Hy.
Qed.

Lemma within_weaken (b b' : Z) (l : list Z) : b <= b' -> within b l -> within b' l.
Proof.
  intros Hb Hl. unfold within in *. rewrite Forall_forall in *.
  intros v Hv. specialize (Hl v Hv). lia.
Qed.

Lemma second_derivative_exact (y : list Z) :
  within (2 ^ 51) y -> second_derivative y = forward_diff (forward_diff y).
Proof.
  intros Hy. unfold second_derivative.
  rewrite first_derivative_exact by (apply (within_weaken (2 ^ 51)); [lia | exact Hy]).
  apply map_to_float64_within.
  apply (forward_diff_within (2 ^ 51)) in Hy; [|lia].
  apply (forward_diff_within (2 * 2 ^ 51)) in Hy; [|lia].
  exact Hy.
Qed.

(** On a non-empty array, [read_chromatogram] returns the table whose
    derivative columns are [first_derivative] and [second_derivative]. *)
Lemma read_chromatogram_nonempty (y : list Z) :
  y <> [] ->
  read_chromatogram y = Ok (mk_chroma y (first_derivative y) (second_derivative y)).
Proof.
  intros Hne. unfold read_chromatogram.
  destruct y as [|x l]; [congruence|].
  unfold convolve at 1. change (store int64) with wrap64.
  cbn [bind true_divide_1].
  rewrite conv_full_diff. cbn [map drop1 tl]. fold (first_derivative (x :: l)).
  pose proof (first_derivative_length (x :: l)) as Hlen.
  destruct (first_derivative (x :: l)) as [|d ds] eqn:E; [discriminate|].
  unfold convolve. change (store float64) with to_float64.
  cbn [bind true_divide_1].
  rewrite conv_full_diff. cbn [map drop1 tl].
  rewrite <- E. fold (second_derivative (x :: l)).
  unfold DataFrame3.
  rewrite first_derivative_length, second_derivative_length, Nat.eqb_refl. reflexivity.
Qed.

Lemma read_chromatogram_empty : read_chromatogram [] = Raise ValueError.
Proof. reflexivity. Qed.

(** C10, as stated, fails at both ends of "every input signal": on the
    empty signal [np.convolve] raises [ValueError] and no column is
    produced; and on [[2^63 - 1, -2, 0]] the int64 difference wraps, so that
    the stored entry 0 is [2^63], not [signal[1] - signal[0] = - 2^63 - 1]. *)
Lemma read_chromatogram_empty_or_wrapping :
  read_chromatogram [] = Raise ValueError /\
  exists df,
    read_chromatogram [2 ^ 63 - 1; -2; 0] = Ok df /\
    nth 0 (first_diff df) 0 = 2 ^ 63 /\
    nth 1 [2 ^ 63 - 1; -2; 0] 0 - nth 0 [2 ^ 63 - 1; -2; 0] 0 = - 2 ^ 63 - 1.
Proof.
  split; [reflexivity|].
  eexists. split; [apply read_chromatogram_nonempty; discriminate|].
  split; reflexivity.
Qed.

(** C10, amended: for a non-empty integer signal of length [n] the stored
    'First diff' and 'Second diff' columns both have length [n] and the
    DataFrame is built; when moreover no sample exceeds [2^52] in absolute
    value, entry [i] of 'First diff' is [signal[i+1] - signal[i]] for
    [i < n-1], and its final entry is [- signal[n-1]]. *)
Theorem read_chromatogram_stored_columns (y : list Z) :
  y <> [] ->
  exists df,
    read_chromatogram y = Ok df /\
    channel df = y /\
    length (first_diff df) = length y /\
    length (second_diff df) = length y /\
    (within (2 ^ 52) y ->
     (forall i, (S i < length y)%nat ->
                nth i (first_diff df) 0 = nth (S i) y 0 - nth i y 0) /\
     nth (length y - 1) (first_diff df) 0 = - nth (length y - 1) y 0).
Proof.
  intros Hne. eexists. split; [apply read_chromatogram_nonempty; exact Hne|].
  cbn [channel first_diff second_diff].
  rewrite first_derivative_length, second_derivative_length.
  repeat split.
  - intros i Hi. rewrite first_derivative_exact by assumption.
    apply forward_diff_nth. exact Hi.
  - rewrite first_derivative_exact by assumption.
    apply forward_diff_last. exact Hne.
Qed.

Lemma read_chromatogram_stored_columns_witness :
  exists df,
    read_chromatogram [5; 7; 10] = Ok df /\
    channel df = [5; 7; 10] /\
    length (first_diff df) = 3%nat /\
    length (second_diff df) = 3%nat /\
    (forall i, (S i < 3)%nat ->
               nth i (first_diff df) 0 = nth (S i) [5; 7; 10] 0 - nth i [5; 7; 10] 0) /\
    nth 2 (first_diff df) 0 = - nth 2 [5; 7; 10] 0.
Proof.
  destruct (read_chromatogram_stored_columns [5; 7; 10])
    as (df & Hread & Hch & Hl1 & Hl2 & Hentries); [discriminate|].
  exists df. repeat split; try assumption;
    apply Hentries; repeat constructor; cbn; lia.
Defined.

(** C2, as stated, fails: on the signal [5, 7, 10] the stored first
    derivative is [2, 3, -10], not the backward difference [5, 2, 3]; its
    entry 0 is [signal[1] - signal[0]], not [signal[0]]. *)
Lemma read_chromatogram_not_backward_difference :
  exists df,
    read_chromatogram [5; 7; 10] = Ok df /\
    first_diff df = [2; 3; -10] /\
    backward_diff (channel df) = [5; 2; 3] /\
    nth 0 (first_diff df) 0 <> nth 0 (channel df) 0.
Proof.
  eexists. split; [reflexivity|]. cbn. repeat split. discriminate.
Qed.

(** C2, amended: for a non-empty integer signal whose samples do not
    exceed [2^51] in absolute value, the stored first derivative is the
    forward difference, [firstDiff[i] = signal[i+1] - signal[i]] for
    [i < n-1] and [firstDiff[n-1] = - signal[n-1]] (the signal followed by
    an implicit 0), and the stored second derivative is that same operator
    applied to the stored first derivative. *)
Theorem read_chromatogram_forward_difference (y : list Z) :
  y <> [] -> within (2 ^ 51) y ->
  exists df,
    read_chromatogram y = Ok df /\
    (forall i, (S i < length y)%nat ->
               nth i (first_diff df) 0 = nth (S i) y 0 - nth i y 0) /\
    nth (length y - 1) (first_diff df) 0 = - nth (length y - 1) y 0 /\
    (forall i, (S i < length y)%nat ->
               nth i (second_diff df) 0
               = nth (S i) (first_diff df) 0 - nth i (first_diff df) 0) /\
    nth (length y - 1) (second_diff df) 0 = - nth (length y - 1) (first_diff df) 0 /\
    first_diff df = forward_diff y /\
    second_diff df = forward_diff (first_diff df).
Proof.
  intros Hne Hy. eexists. split; [apply read_chromatogram_nonempty; exact Hne|].
  cbn [channel first_diff second_diff].
  rewrite second_derivative_exact by exact Hy.
  rewrite first_derivative_exact by (apply (within_weaken (2 ^ 51)); [lia | exact Hy]).
  pose proof (forward_diff_length y) as Hlen.
  repeat split.
  - intros i Hi. apply forward_diff_nth. exact Hi.
  - apply forward_diff_last. exact Hne.
  - intros i Hi. apply forward_diff_nth. rewrite Hlen. exact Hi.
  - rewrite <- Hlen. apply forward_diff_last. apply forward_diff_nonempty. exact Hne.
Qed.

Lemma read_chromatogram_forward_difference_witness :
  exists df,
    read_chromatogram [5; 7; 10] = Ok df /\
    (forall i, (S i < 3)%nat ->
               nth i (first_diff df) 0 = nth (S i) [5; 7; 10] 0 - nth i [5; 7; 10] 0) /\
    nth 2 (first_diff df) 0 = - nth 2 [5; 7; 10] 0 /\
    (forall i, (S i < 3)%nat ->
               nth i (second_diff df) 0
               = nth (S i) (first_diff df) 0 - nth i (first_diff df) 0) /\
    nth 2 (second_diff df) 0 = - nth 2 (first_diff df) 0 /\
    first_diff df = forward_diff [5; 7; 10] /\
    second_diff df = forward_diff (first_diff df).
Proof.
  apply (read_chromatogram_forward_difference [5; 7; 10]); [discriminate|].
  repeat constructor; cbn; lia.
Defined.

(** ** Peak detection *)

Lemma plateau_end_le (x : list Z) (i_max : nat) (xi : Z) (i_ahead : nat) :
  (i_ahead <= i_max)%nat -> (plateau_end x i_max xi i_ahead <= i_max)%nat.
Proof.
  funelim (plateau_end x i_max xi i_ahead); intros; lia.
Qed.

Lemma lm_loop_bounds (x : list Z) (i_max i m : nat) :
  In m (lm_loop x i_max i) -> (i <= m < i_max)%nat.
Proof.
  funelim (lm_loop x i_max i); intros Hin.
  - contradiction.
  - specialize (H m Hin). lia.
  - pose proof (plateau_end_ge x i_max (sample x i) (S i)) as Hge.
    destruct Hin as [Hm | Hin].
    + pose proof (plateau_end_le x i_max (sample x i) (S i) ltac:(lia)) as Hle.
      subst m. split.
      * apply Nat.div_le_lower_bound; lia.
      * apply Nat.Div0.div_lt_upper_bound; lia.
    + specialize (H m Hin). lia.
  - specialize (H m Hin). lia.
Qed.

Lemma mask_select_map {A : Type} (f : A -> bool) (l : list A) :
  mask_select l (map f l) = filter f l.
Proof.
  unfold mask_select. induction l as [|a l IH]; [reflexivity|].
  cbn [map combine filter snd]. destruct (f a); cbn [map fst]; rewrite IH; reflexivity.
Qed.

Lemma mask_select_In {A : Type} (l : list A) (keep : list bool) (a : A) :
  In a (mask_select l keep) -> In a l.
Proof.
  unfold mask_select. intros Hin.
  apply in_map_iff in Hin. destruct Hin as [[a' b] [Ha Hin]].
  apply filter_In in Hin. destruct Hin as [Hin _].
  apply in_combine_l in Hin. simpl in Ha. subst a'. exact Hin.
Qed.

(** What every position returned by [find_peaks] satisfies. *)
Lemma find_peaks_sound (x : list Z) (h t d : Z) (peaks : list nat) (heights : list Z) :
  find_peaks x h t d = Ok (peaks, heights) ->
  heights = take (map to_float64 x) peaks /\
  forall i, In i peaks ->
    (1 <= i)%nat /\ (i + 1 < length x)%nat /\
    h <= to_float64 (sample x i) /\
    t <= to_float64 (to_float64 (sample x i) - to_float64 (sample x (i - 1))) /\
    t <= to_float64 (to_float64 (sample x i) - to_float64 (sample x (i + 1))).
Proof.
  unfold find_peaks. cbv zeta. destruct (d <? 1); [discriminate|].
  intros Heq. injection Heq as Hp Hh. split; [subst; reflexivity|].
  intros i Hin. rewrite <- Hp in Hin.
  apply mask_select_In in Hin.
  unfold select_by_peak_threshold in Hin. rewrite mask_select_map in Hin.
  apply filter_In in Hin. destruct Hin as [Hin Ht].
  unfold select_by_property, take in Hin.
  rewrite map_map, mask_select_map in Hin.
  apply filter_In in Hin. destruct Hin as [Hin Hh'].
  apply lm_loop_bounds in Hin. rewrite length_map in Hin.
  apply Z.leb_le in Ht. apply Z.leb_le in Hh'.
  rewrite !sample_to_float64 in Ht. rewrite sample_to_float64 in Hh'.
  repeat split; lia.
Qed.

Lemma find_peaks_total (x : list Z) (h t d : Z) :
  1 <= d -> exists found, find_peaks x h t d = Ok found.
Proof.
  intros Hd. unfold find_peaks.
  destruct (Z.ltb_spec d 1); [lia|]. eexists. reflexivity.
Qed.

Lemma pre_peak_data_total (x : list Z) : exists pre, pre_peak_data x = Ok pre.
Proof.
  unfold pre_peak_data.
  destruct (find_peaks_total x min_height min_threshold min_distance) as [found Hf].
  - unfold min_distance. lia.
  - rewrite Hf. eexists. reflexivity.
Qed.

Lemma in_combine_take (x : list Z) (peaks : list nat) (pk : peak) :
  In pk (combine (map Z.of_nat peaks) (take x peaks)) ->
  exists i, In i peaks /\ pk = (Z.of_nat i, sample x i).
Proof.
  unfold take. induction peaks as [|p peaks IH]; simpl; [contradiction|].
  intros [Heq | Hin].
  - exists p. split; [left; reflexivity | symmetry; exact Heq].
  - destruct (IH Hin) as [i [Hi Hpk]]. exists i. split; [right; exact Hi | exact Hpk].
Qed.

(** Every row of [pre_peak_data] is a position inside the signal, at least
    [min_height] high and strictly above both neighbouring samples. *)
Lemma pre_peak_data_sound (x : list Z) (pre : list peak) (pk : peak) :
  pre_peak_data x = Ok pre ->
  In pk pre ->
  exists i,
    index pk = Z.of_nat i /\ height pk = to_float64 (sample x i) /\
    (1 <= i)%nat /\ (i + 1 < length x)%nat /\
    min_height <= sample x i /\
    sample x (i - 1) < sample x i /\
    sample x (i + 1) < sample x i.
Proof.
  intros Hpre Hin. unfold pre_peak_data in Hpre.
  destruct (find_peaks x min_height min_threshold min_distance)
    as [[peaks heights]|e] eqn:Hf; [|discriminate].
  cbn [bind fst snd] in Hpre. injection Hpre as Hpre. subst pre.
  destruct (find_peaks_sound _ _ _ _ _ _ Hf) as [Hh Hall]. subst heights.
  destruct (in_combine_take _ _ _ Hin) as [i [Hi Hpk]].
  destruct (Hall i Hi) as (H1 & H2 & H3 & H4 & H5).
  unfold min_threshold, min_height in *.
  apply -> to_float64_ge_small in H3; [|split; [lia | vm_compute; discriminate]].
  apply -> to_float64_ge_small in H4; [|split; [lia | vm_compute; discriminate]].
  apply -> to_float64_ge_small in H5; [|split; [lia | vm_compute; discriminate]].
  assert (H4' : to_float64 (sample x (i - 1)) < to_float64 (sample x i)) by lia.
  assert (H5' : to_float64 (sample x (i + 1)) < to_float64 (sample x i)) by lia.
  apply to_float64_lt in H4'. apply to_float64_lt in H5'.
  exists i. subst pk. cbn [index height fst snd]. rewrite sample_to_float64.
  repeat split; assumption.
Qed.

(** C7: every peak of the detection stage has [intensity[peak.index] >=
    minHeight] (4000) and stands strictly above both of its neighbouring
    samples; its height is the sample as float64, which is the sample
    itself up to [2^53]; detection always returns, and when no position of
    the signal has these properties its result is the empty sequence. *)
Theorem detected_peaks_are_high_strict_maxima (x : list Z) :
  exists pre,
    pre_peak_data x = Ok pre /\
    (forall pk, In pk pre ->
       exists i,
         index pk = Z.of_nat i /\
         height pk = to_float64 (sample x i) /\
         (Z.abs (sample x i) <= 2 ^ 53 -> height pk = sample x i) /\
         (1 <= i)%nat /\ (i + 1 < length x)%nat /\
         min_height <= sample x i /\
         sample x (i - 1) < sample x i /\
         sample x (i + 1) < sample x i) /\
    ((forall i, (1 <= i)%nat -> (i + 1 < length x)%nat ->
                min_height <= sample x i ->
                sample x (i - 1) < sample x i ->
                sample x i <= sample x (i + 1)) ->
     pre = []).
Proof.
  destruct (pre_peak_data_total x) as [pre Hpre].
  exists pre. split; [exact Hpre|].
  split.
  { intros pk Hin.
    destruct (pre_peak_data_sound x pre pk Hpre Hin) as (i & Hi & Hh & Hrest).
    exists i. split; [exact Hi|]. split; [exact Hh|]. split; [|exact Hrest].
    intros Hsmall. rewrite Hh. apply to_float64_small. exact Hsmall. }
  intros Hnone. destruct pre as [|pk pre]; [reflexivity|].
  destruct (pre_peak_data_sound x _ pk Hpre (or_introl eq_refl))
    as (i & _ & _ & H1 & H2 & H3 & H4 & H5).
  specialize (Hnone i H1 H2 H3 H4). lia.
Qed.

(** ** Lists, dictionaries and loops *)

Lemma interval_eqb_eq (a b : interval) : interval_eqb a b = true <-> a = b.
Proof.
  destruct a as [a1 a2], b as [b1 b2]. unfold interval_eqb. cbn [fst snd].
  rewrite andb_true_iff, !Z.eqb_eq. split.
  - intros [H1 H2]. subst. reflexivity.
  - intros H. injection H as H1 H2. split; assumption.
Qed.

Lemma interval_eqb_refl (a : interval) : interval_eqb a a = true.
Proof. apply interval_eqb_eq. reflexivity. Qed.

Lemma interval_eqb_neq (a b : interval) : a <> b -> interval_eqb a b = false.
Proof.
  intros Hne. destruct (interval_eqb a b) eqn:E; [|reflexivity].
  apply interval_eqb_eq in E. contradiction.
Qed.

Lemma interval_eq_dec (a b : interval) : {a = b} + {a <> b}.
Proof.
  destruct (interval_eqb a b) eqn:E.
  - left. apply interval_eqb_eq. exact E.
  - right. intros H. apply interval_eqb_eq in H. congruence.
Qed.

Lemma dict_get_set_same {V : Type} (d : list (interval * V)) k v :
  dict_get (dict_set d k v) k = Some v.
Proof.
  induction d as [|[k' v'] d IH]; cbn [dict_set dict_get].
  - rewrite interval_eqb_refl. reflexivity.
  - destruct (interval_eqb k k') eqn:E; cbn [dict_get].
    + rewrite interval_eqb_refl. reflexivity.
    + rewrite E. exact IH.
Qed.

Lemma dict_get_set_other {V : Type} (d : list (interval * V)) k k' v :
  k <> k' -> dict_get (dict_set d k v) k' = dict_get d k'.
Proof.
  intros Hne. induction d as [|[k0 v0] d IH]; cbn [dict_set dict_get].
  - rewrite interval_eqb_neq by congruence. reflexivity.
  - destruct (interval_eqb k k0) eqn:E; cbn [dict_get].
    + apply interval_eqb_eq in E. subst k0.
      rewrite !(interval_eqb_neq k' k) by congruence. reflexivity.
    + destruct (interval_eqb k' k0); [reflexivity | exact IH].
Qed.

Lemma dict_set_same {V : Type} (d : list (interval * V)) k v :
  dict_get d k = Some v -> dict_set d k v = d.
Proof.
  induction d as [|[k' v'] d IH]; cbn [dict_set dict_get]; [discriminate|].
  destruct (interval_eqb k k') eqn:E.
  - intros H. injection H as H. apply interval_eqb_eq in E. subst. reflexivity.
  - intros H. rewrite (IH H). reflexivity.
Qed.

Lemma dict_get_keys {V : Type} (d : list (interval * V)) k :
  In k (keys d) <-> exists v, dict_get d k = Some v.
Proof.
  unfold keys. induction d as [|[k' v'] d IH]; cbn [map dict_get fst In].
  - split; [contradiction | intros [v H]; discriminate].
  - destruct (interval_eqb k k') eqn:E.
    + apply interval_eqb_eq in E. subst k'. split; [eauto | auto].
    + rewrite <- IH. split; [|auto].
      intros [H|H]; [|exact H]. subst k'. rewrite interval_eqb_refl in E. discriminate.
Qed.

Lemma keys_dict_set {V : Type} (d : list (interval * V)) k v k' :
  In k' (keys (dict_set d k v)) <-> k' = k \/ In k' (keys d).
Proof.
  rewrite !dict_get_keys. destruct (interval_eq_dec k k') as [->|Hne].
  - rewrite dict_get_set_same. split; [auto | eauto].
  - rewrite dict_get_set_other by exact Hne. split; [auto|].
    intros [H|H]; [congruence | exact H].
Qed.

Lemma update_length {A : Type} (l : list A) r a : length (update l r a) = length l.
Proof.
  revert r. induction l as [|b l IH]; intros [|r]; cbn [update length]; auto.
Qed.

Lemma nth_error_update_same {A : Type} (l : list A) r a :
  (r < length l)%nat -> nth_error (update l r a) r = Some a.
Proof.
  revert r. induction l as [|b l IH]; intros [|r] Hr; cbn [length] in Hr;
    cbn [update nth_error]; try lia; [reflexivity|].
  apply IH. lia.
Qed.

Lemma nth_error_update_other {A : Type} (l : list A) r r' a :
  r <> r' -> nth_error (update l r a) r' = nth_error l r'.
Proof.
  revert r r'. induction l as [|b l IH]; intros [|r] [|r'] Hne;
    cbn [update nth_error]; try reflexivity; try congruence.
  apply IH. congruence.
Qed.

Lemma update_same {A : Type} (l : list A) r a :
  nth_error l r = Some a -> update l r a = l.
Proof.
  revert r. induction l as [|b l IH]; intros [|r]; cbn [update nth_error];
    try discriminate.
  - intros H. injection H as H. subst. reflexivity.
  - intros H. rewrite (IH _ H). reflexivity.
Qed.

Lemma map_update {A B : Type} (f : A -> B) (l : list A) r a :
  map f (update l r a) = update (map f l) r (f a).
Proof.
  revert r. induction l as [|b l IH]; intros [|r]; cbn [update map];
    try reflexivity.
  rewrite IH. reflexivity.
Qed.

(** A run of [c ;; k] either passes through a result of [c] or stops at
    its exception. *)
Lemma pbind_run {A B : Type} (c : py A) (k : A -> py B) (h : heap) r h' :
  pbind c k h = (r, h') ->
  (exists a h1, c h = (Ok a, h1) /\ k a h1 = (r, h')) \/
  (exists e, c h = (Raise e, h') /\ r = Raise e).
Proof.
  unfold pbind. destruct (c h) as [[a|e] h1]; intros H.
  - left. eauto.
  - right. injection H as H1 H2. subst. eauto.
Qed.

(** Loop rule: an invariant of the heap that every run of the body keeps,
    whether it returns or raises, holds after the loop. *)
Lemma for_each_invariant {A : Type} (I : heap -> Prop) (l : list A) (body : A -> py unit) :
  (forall a h, In a l -> I h -> I (snd (body a h))) ->
  forall h, I h -> I (snd (for_each l body h)).
Proof.
  induction l as [|a l IH]; intros Hbody h Hh; cbn [for_each]; [exact Hh|].
  unfold pbind. specialize (Hbody a h (or_introl eq_refl) Hh) as Ha.
  destruct (body a h) as [[[]|e] h1]; cbn [snd] in *; [|exact Ha].
  apply IH; [|exact Ha]. intros b h2 Hb. apply Hbody. right. exact Hb.
Qed.

(** Loop rule: if from the invariant every run of the body returns, keeps
    the invariant, establishes [P] for its element and keeps [P] for all
    others, then the loop returns and [P] holds for every element. *)
Lemma for_each_returns {A : Type} (I : heap -> Prop) (P : A -> heap -> Prop)
    (l : list A) (body : A -> py unit) :
  (forall a h, In a l -> I h ->
     exists h', body a h = (Ok tt, h') /\ I h' /\ P a h' /\
                forall b, P b h -> P b h') ->
  forall h, I h ->
    exists h', for_each l body h = (Ok tt, h') /\ I h' /\
               (forall a, In a l -> P a h') /\
               forall b, P b h -> P b h'.
Proof.
  induction l as [|a l IH]; intros Hbody h Hh; cbn [for_each].
  - exists h. repeat split; auto. contradiction.
  - destruct (Hbody a h (or_introl eq_refl) Hh) as (h1 & Hrun & Hh1 & Pa & Pkeep).
    destruct (IH (fun b h2 Hb => Hbody b h2 (or_intror Hb)) h1 Hh1)
      as (h2 & Hloop & Hh2 & Pall & Pkeep2).
    exists h2. unfold pbind. rewrite Hrun. repeat split; auto.
    intros b [Hb|Hb]; [subst b; apply Pkeep2; exact Pa | apply Pall; exact Hb].
Qed.

(** Running the heap primitives. *)
Lemma run_bind_ok {A B : Type} (c : py A) (k : A -> py B) h a h1 :
  c h = (Ok a, h1) -> pbind c k h = k a h1.
Proof. intros H. unfold pbind. rewrite H. reflexivity. Qed.

Lemma run_bind_raise {A B : Type} (c : py A) (k : A -> py B) h e h1 :
  c h = (Raise e, h1) -> pbind c k h = (Raise e, h1).
Proof. intros H. unfold pbind. rewrite H. reflexivity. Qed.

Lemma get_chroma_ok h r c :
  nth_error (chromas h) r = Some c -> get_chroma r h = (Ok c, h).
Proof. intros H. unfold get_chroma. rewrite H. reflexivity. Qed.

Lemma get_frame_ok h r f :
  nth_error (frames h) r = Some f -> get_frame r h = (Ok f, h).
Proof. intros H. unfold get_frame. rewrite H. reflexivity. Qed.

Lemma get_dict_ok h r entries :
  nth_error (dicts h) r = Some entries -> get_dict r h = (Ok entries, h).
Proof. intros H. unfold get_dict. rewrite H. reflexivity. Qed.

Lemma dict_getitem_ok h d entries k r :
  nth_error (dicts h) d = Some entries -> dict_get entries k = Some r ->
  dict_getitem d k h = (Ok r, h).
Proof.
  intros Hd Hk. unfold dict_getitem.
  rewrite (run_bind_ok _ _ _ _ _ (get_dict_ok _ _ _ Hd)). rewrite Hk. reflexivity.
Qed.

Lemma dict_setitem_ok h d entries k v :
  nth_error (dicts h) d = Some entries ->
  dict_setitem d k v h
  = (Ok tt, mk_heap (chromas h) (frames h) (update (dicts h) d (dict_set entries k v))).
Proof.
  intros Hd. unfold dict_setitem.
  rewrite (run_bind_ok _ _ _ _ _ (get_dict_ok _ _ _ Hd)). reflexivity.
Qed.

(** Storing under a key the object it already holds changes nothing. *)
Lemma dict_setitem_same h d entries k r :
  nth_error (dicts h) d = Some entries -> dict_get entries k = Some r ->
  dict_setitem d k r h = (Ok tt, mk_heap (chromas h) (frames h) (dicts h)).
Proof.
  intros Hd Hk. rewrite (dict_setitem_ok _ _ _ _ _ Hd).
  rewrite (dict_set_same _ _ _ Hk), (update_same _ _ _ Hd). reflexivity.
Qed.

(** ** Interval assignment *)

Lemma nth_error_snoc {A : Type} (l : list A) (a : A) :
  nth_error (l ++ [a]) (length l) = Some a.
Proof.
  rewrite nth_error_app2 by lia. rewrite Nat.sub_diag. reflexivity.
Qed.

Lemma update_snoc {A : Type} (l : list A) (a b : A) :
  update (l ++ [a]) (length l) b = l ++ [b].
Proof.
  induction l as [|c l IH]; cbn [app length update]; [reflexivity|].
  rewrite IH. reflexivity.
Qed.

Lemma nth_error_app_some {A : Type} (l l' : list A) r a :
  nth_error l r = Some a -> nth_error (l ++ l') r = Some a.
Proof.
  intros H. rewrite nth_error_app1; [exact H|].
  apply nth_error_Some. congruence.
Qed.

(** What [peak_finder] builds: a new dictionary, after the existing ones,
    whose keys are the intervals and whose tables, new as well, hold the
    peaks strictly inside their interval. *)
Lemma peak_finder_spec (h : heap) (data : nat) (intervals : list interval)
    (c : chroma) (pre : list peak) :
  nth_error (chromas h) data = Some c ->
  pre_peak_data (channel c) = Ok pre ->
  exists fs entries,
    peak_finder data intervals h
    = (Ok (length (dicts h)),
       mk_heap (chromas h) (frames h ++ fs) (dicts h ++ [entries])) /\
    (forall k, In k (keys entries) <-> In k intervals) /\
    (forall k r, dict_get entries k = Some r ->
       nth_error (frames h ++ fs) r
       = Some (mk_peaks (filter (in_interval k) pre) no_extra)).
Proof.
  intros Hc Hpre. unfold peak_finder.
  set (d := length (dicts h)).
  set (body := fun iv : interval =>
         r <~ new_frame (mk_peaks (filter (in_interval iv) pre) no_extra) ;;
         dict_setitem d iv r).
  set (I := fun h2 : heap =>
         chromas h2 = chromas h /\
         exists fs entries,
           frames h2 = frames h ++ fs /\ dicts h2 = dicts h ++ [entries] /\
           (forall k, In k (keys entries) -> In k intervals) /\
           (forall k r, dict_get entries k = Some r ->
              nth_error (frames h ++ fs) r
              = Some (mk_peaks (filter (in_interval k) pre) no_extra))).
  set (P := fun (iv : interval) (h2 : heap) =>
         exists entries, nth_error (dicts h2) d = Some entries /\ In iv (keys entries)).
  assert (Hstep : forall a h2, In a intervals -> I h2 ->
            exists h', body a h2 = (Ok tt, h') /\ I h' /\ P a h' /\
                       forall b, P b h2 -> P b h').
  { intros iv h2 Hiv (Hch & fs & entries & Hfr & Hd & Hkeys & Htab).
    assert (Hnth : nth_error (dicts h2) d = Some entries)
      by (rewrite Hd; apply nth_error_snoc).
    eexists. split.
    - unfold body. erewrite run_bind_ok by (unfold new_frame; reflexivity).
      erewrite dict_setitem_ok by exact Hnth. cbn [chromas frames dicts].
      rewrite Hd. unfold d. rewrite update_snoc. reflexivity.
    - split; [|split].
      + split; [exact Hch|].
        exists (fs ++ [mk_peaks (filter (in_interval iv) pre) no_extra]),
               (dict_set entries iv (length (frames h2))).
        cbn [chromas frames dicts]. rewrite Hfr, app_assoc.
        split; [reflexivity|]. split; [reflexivity|]. split.
        * intros k Hk. apply keys_dict_set in Hk. destruct Hk as [->|Hk]; auto.
        * intros k r Hget. destruct (interval_eq_dec iv k) as [->|Hne].
          -- rewrite dict_get_set_same in Hget. injection Hget as <-.
             rewrite <- Hfr. apply nth_error_snoc.
          -- rewrite dict_get_set_other in Hget by exact Hne.
             apply nth_error_app_some. apply Htab. exact Hget.
      + unfold P. cbn [dicts]. unfold d. rewrite nth_error_snoc.
        eexists. split; [reflexivity|]. apply keys_dict_set. left. reflexivity.
      + intros b (entries' & Hb & Hin). unfold P. cbn [dicts].
        rewrite Hnth in Hb. injection Hb as <-.
        unfold d. rewrite nth_error_snoc.
        eexists. split; [reflexivity|]. apply keys_dict_set. right. exact Hin. }
  set (h1 := mk_heap (chromas h) (frames h) (dicts h ++ [[]])).
  assert (Hh1 : I h1).
  { split; [reflexivity|]. exists [], []. cbn [frames dicts].
    rewrite app_nil_r. repeat split; try reflexivity.
    - intros k Hk. contradiction.
    - intros k r Hget. discriminate. }
  destruct (for_each_returns I P intervals body Hstep h1 Hh1)
    as (h2 & Hloop & (Hch & fs & entries & Hfr & Hd & Hkeys & Htab) & Pall & _).
  exists fs, entries. split; [|split].
  - rewrite (run_bind_ok _ _ _ _ _ (get_chroma_ok _ _ _ Hc)).
    erewrite run_bind_ok by (unfold lift; rewrite Hpre; reflexivity).
    erewrite run_bind_ok by (unfold new_dict; reflexivity).
    fold d. fold h1. fold body.
    rewrite (run_bind_ok _ _ _ _ _ Hloop). unfold ret.
    destruct h2 as [ch2 fr2 di2]. cbn [chromas frames dicts] in *. subst. reflexivity.
  - intros k. split; [apply Hkeys|]. intros Hk.
    destruct (Pall k Hk) as (entries' & Hn & Hin).
    rewrite Hd in Hn. unfold d in Hn. rewrite nth_error_snoc in Hn.
    injection Hn as <-. exact Hin.
  - exact Htab.
Qed.

(** ** What the later stages leave alone *)

Lemma same_rows_refl (h : heap) : same_rows h h.
Proof. repeat split. Qed.

Lemma same_rows_set_frame (h0 h : heap) (r : nat) (f f' : peaks_frame) :
  same_rows h0 h -> nth_error (frames h) r = Some f -> pk_rows f' = pk_rows f ->
  same_rows h0 (mk_heap (chromas h) (update (frames h) r f') (dicts h)).
Proof.
  intros (Hc & Hd & Hr) Hf Hrows. repeat split; cbn [chromas frames dicts]; auto.
  rewrite map_update, Hrows, <- Hr. apply update_same.
  rewrite nth_error_map, Hf. reflexivity.
Qed.

Lemma same_rows_table_of (h h' : heap) (d : nat) (k : interval) :
  same_rows h h' ->
  option_map pk_rows (table_of h' d k) = option_map pk_rows (table_of h d k).
Proof.
  intros (_ & Hd & Hr). unfold table_of. rewrite Hd.
  destruct (nth_error (dicts h) d) as [entries|]; [|reflexivity].
  destruct (dict_get entries k) as [r|]; [|reflexivity].
  rewrite <- !nth_error_map, Hr. reflexivity.
Qed.

(** How a pass over a key runs: it stops with the heap as it was, or it
    replaces the table under the key by the same rows with limits. *)
Lemma limits_body_run (y dy : list Z) (min_slope : Z) (d : nat) (key : interval)
    (h : heap) (res : outcome unit) (h' : heap) :
  limits_body y dy min_slope d key h = (res, h') ->
  (h' = h /\ exists e, res = Raise e) \/
  (exists entries r f lims,
     nth_error (dicts h) d = Some entries /\ dict_get entries key = Some r /\
     nth_error (frames h) r = Some f /\
     frame_limits y dy min_slope (map index (pk_rows f)) = Ok lims /\
     res = Ok tt /\
     h' = mk_heap (chromas h)
            (update (frames h) r
               (mk_peaks (pk_rows f)
                  (with_limits (fst lims) (snd lims)
                     match pk_extra f with no_extra => None | with_limits _ _ a => a end)))
            (dicts h)).
Proof.
  unfold limits_body. intros Hrun.
  destruct (nth_error (dicts h) d) as [entries|] eqn:Hd.
  2:{ unfold pbind, dict_getitem, pbind, get_dict in Hrun. rewrite Hd in Hrun.
      cbn in Hrun. injection Hrun as <- <-. left. eauto. }
  destruct (dict_get entries key) as [r|] eqn:Hk.
  2:{ unfold pbind at 1 in Hrun. unfold dict_getitem in Hrun.
      rewrite (run_bind_ok _ _ _ _ _ (get_dict_ok _ _ _ Hd)) in Hrun.
      rewrite Hk in Hrun. cbn in Hrun. injection Hrun as <- <-. left. eauto. }
  rewrite (run_bind_ok _ _ _ _ _ (dict_getitem_ok _ _ _ _ _ Hd Hk)) in Hrun.
  destruct (nth_error (frames h) r) as [f|] eqn:Hf.
  2:{ unfold pbind, get_frame in Hrun. rewrite Hf in Hrun.
      cbn in Hrun. injection Hrun as <- <-. left. eauto. }
  rewrite (run_bind_ok _ _ _ _ _ (get_frame_ok _ _ _ Hf)) in Hrun.
  destruct (frame_limits y dy min_slope (map index (pk_rows f))) as [lims|e] eqn:Hl.
  2:{ unfold pbind, lift in Hrun. injection Hrun as <- <-. left. eauto. }
  erewrite run_bind_ok in Hrun by (unfold lift; reflexivity).
  erewrite run_bind_ok in Hrun by (unfold set_frame; reflexivity).
  erewrite dict_setitem_same in Hrun by (cbn [dicts]; eassumption).
  cbn [chromas frames dicts] in Hrun. injection Hrun as <- <-.
  right. exists entries, r, f, lims. repeat split; assumption.
Qed.

(** Loop rule: when the loop returns, every pass returned; so what each pass
    that returns establishes for its element, and keeps for the others,
    holds for every element. *)
Lemma for_each_ok {A : Type} (I : heap -> Prop) (P : A -> heap -> Prop)
    (l : list A) (body : A -> py unit) :
  (forall a h h', In a l -> I h -> body a h = (Ok tt, h') ->
     I h' /\ P a h' /\ forall b, P b h -> P b h') ->
  forall h h', I h -> for_each l body h = (Ok tt, h') ->
    I h' /\ (forall a, In a l -> P a h') /\ forall b, P b h -> P b h'.
Proof.
  induction l as [|a l IH]; intros Hbody h h' Hh Hrun; cbn [for_each] in Hrun.
  - injection Hrun as <-. repeat split; auto. contradiction.
  - apply pbind_run in Hrun.
    destruct Hrun as [([] & h1 & Ha & Hrest) | (e & _ & He)]; [|discriminate].
    destruct (Hbody a h h1 (or_introl eq_refl) Hh Ha) as (Hh1 & Pa & Pkeep).
    destruct (IH (fun b h2 h3 Hb => Hbody b h2 h3 (or_intror Hb)) h1 h' Hh1 Hrest)
      as (Hh' & Pall & Pkeep').
    repeat split; auto.
    intros b [Hb|Hb]; [subst b; apply Pkeep'; exact Pa | apply Pall; exact Hb].
Qed.

(** [limits_finder] changes no chromatogram table, no dictionary and no row
    of a table of peaks, whether it returns or raises. *)
Lemma limits_finder_same_rows (chroma_data peaks_data : nat) (min_slope : Z) (h : heap) :
  same_rows h (snd (limits_finder chroma_data peaks_data min_slope h)).
Proof.
  unfold limits_finder.
  destruct (get_chroma chroma_data h) as [[c|e] h1] eqn:Hc.
  2:{ rewrite (run_bind_raise _ _ _ _ _ Hc). unfold get_chroma, deref in Hc.
      destruct (nth_error (chromas h) chroma_data); inversion Hc. apply same_rows_refl. }
  assert (h1 = h) as ->.
  { unfold get_chroma, deref in Hc.
    destruct (nth_error (chromas h) chroma_data); inversion Hc; reflexivity. }
  rewrite (run_bind_ok _ _ _ _ _ Hc).
  destruct (nth_error (dicts h) peaks_data) as [entries|] eqn:Hd.
  2:{ unfold pbind, get_dict. rewrite Hd. cbn. apply same_rows_refl. }
  rewrite (run_bind_ok _ _ _ _ _ (get_dict_ok _ _ _ Hd)).
  assert (Hinv : same_rows h
            (snd (for_each (keys entries)
                    (limits_body (channel c) (map Z.abs (first_diff c)) min_slope peaks_data)
                    h))).
  { apply for_each_invariant; [|apply same_rows_refl].
    intros key h3 _ Hh3.
    destruct (limits_body _ _ _ _ key h3) as [res h4] eqn:Hb; cbn [snd].
    apply limits_body_run in Hb.
    destruct Hb as [[-> _] | (en & r & f & lims & _ & _ & Hf & _ & _ & ->)];
      [exact Hh3|].
    apply (same_rows_set_frame h h3 r f); auto. }
  unfold pbind.
  destruct (for_each (keys entries) _ h) as [[[]|e] h2]; cbn [snd] in *; exact Hinv.
Qed.

Lemma limits_of_has_limits y dy min_slope f : limits_of y dy min_slope f -> has_limits f.
Proof. intros (lims & area & _ & Hx). do 3 eexists. exact Hx. Qed.

(** When [limits_finder] returns, it returns the dictionary it was given,
    and every table of that dictionary carries the limits of its rows. *)
Lemma limits_finder_in_place (chroma_data peaks_data : nat) (min_slope : Z)
    (h : heap) (d : nat) (h' : heap) :
  limits_finder chroma_data peaks_data min_slope h = (Ok d, h') ->
  d = peaks_data /\
  exists c entries,
    nth_error (chromas h) chroma_data = Some c /\
    nth_error (dicts h) peaks_data = Some entries /\
    forall k, In k (keys entries) ->
      exists f, table_of h' peaks_data k = Some f /\
                limits_of (channel c) (map Z.abs (first_diff c)) min_slope f.
Proof.
  unfold limits_finder. intros Hrun.
  apply pbind_run in Hrun. destruct Hrun as [(c & h1 & Hc & Hrun) | (e & _ & He)];
    [|discriminate].
  assert (h1 = h /\ nth_error (chromas h) chroma_data = Some c) as [-> Hc'].
  { unfold get_chroma, deref in Hc.
    destruct (nth_error (chromas h) chroma_data); inversion Hc; auto. }
  apply pbind_run in Hrun.
  destruct Hrun as [(entries & h1 & Hd & Hrun) | (e & _ & He)]; [|discriminate].
  assert (h1 = h /\ nth_error (dicts h) peaks_data = Some entries) as [-> Hd'].
  { unfold get_dict, deref in Hd.
    destruct (nth_error (dicts h) peaks_data); inversion Hd; auto. }
  apply pbind_run in Hrun.
  destruct Hrun as [([] & h2 & Hloop & Hret) | (e & _ & He)]; [|discriminate].
  injection Hret as <- <-. split; [reflexivity|].
  exists c, entries. split; [exact Hc'|]. split; [exact Hd'|].
  set (y := channel c) in *. set (dy := map Z.abs (first_diff c)) in *.
  set (I := fun h2 : heap => dicts h2 = dicts h).
  set (P := fun (k : interval) (h2 : heap) =>
         exists f, table_of h2 peaks_data k = Some f /\ limits_of y dy min_slope f).
  refine (proj1 (proj2 (for_each_ok I P _ _ _ h h2 eq_refl Hloop))).
  intros key h3 h4 _ Hh3 Hb. apply limits_body_run in Hb.
  destruct Hb as [[_ [e He]] | (en & r & f & lims & Hen & Hk & Hf & Hlims & _ & ->)];
    [discriminate|].
  assert (Hnew : limits_of y dy min_slope
            (mk_peaks (pk_rows f)
               (with_limits (fst lims) (snd lims)
                  match pk_extra f with no_extra => None | with_limits _ _ a => a end))).
  { exists lims. eexists. split; [exact Hlims | reflexivity]. }
  split; [exact Hh3|]. split.
  - eexists. split; [|exact Hnew].
    unfold table_of. cbn [dicts frames]. rewrite Hen, Hk.
    apply nth_error_update_same. apply nth_error_Some. congruence.
  - intros b (fb & Hb & Hlim). unfold P, table_of in *. cbn [dicts frames].
    destruct (nth_error (dicts h3) peaks_data) as [en'|]; [|discriminate].
    destruct (dict_get en' b) as [rb|]; [|discriminate].
    destruct (Nat.eq_dec r rb) as [<-|Hne].
    + eexists. split; [|exact Hnew].
      apply nth_error_update_same. apply nth_error_Some. congruence.
    + exists fb. split; [|exact Hlim].
      rewrite nth_error_update_other by exact Hne. exact Hb.
Qed.

Section IntegrationFacts.

Variable simpson : list Z -> outcome float.

(** How a pass of the integration loop over a key runs: it stops with the
    heap as it was, or it replaces the table under the key by the same
    rows and limits with their areas. *)
Lemma integration_body_run (points : list Z) (d : nat) (key : interval)
    (h : heap) (res : outcome unit) (h' : heap) :
  integration_body simpson points d key h = (res, h') ->
  (h' = h /\ exists e, res = Raise e) \/
  (exists entries r f limits_idx limits_val a areas,
     nth_error (dicts h) d = Some entries /\ dict_get entries key = Some r /\
     nth_error (frames h) r = Some f /\
     pk_extra f = with_limits limits_idx limits_val a /\
     frame_areas simpson points limits_idx = Ok areas /\
     res = Ok tt /\
     h' = mk_heap (chromas h)
            (update (frames h) r
               (mk_peaks (pk_rows f) (with_limits limits_idx limits_val (Some areas))))
            (dicts h)).
Proof.
  unfold integration_body. intros Hrun.
  destruct (nth_error (dicts h) d) as [entries|] eqn:Hd.
  2:{ unfold pbind, dict_getitem, pbind, get_dict in Hrun. rewrite Hd in Hrun.
      cbn in Hrun. injection Hrun as <- <-. left. eauto. }
  destruct (dict_get entries key) as [r|] eqn:Hk.
  2:{ unfold pbind at 1 in Hrun. unfold dict_getitem in Hrun.
      rewrite (run_bind_ok _ _ _ _ _ (get_dict_ok _ _ _ Hd)) in Hrun.
      rewrite Hk in Hrun. cbn in Hrun. injection Hrun as <- <-. left. eauto. }
  rewrite (run_bind_ok _ _ _ _ _ (dict_getitem_ok _ _ _ _ _ Hd Hk)) in Hrun.
  destruct (nth_error (frames h) r) as [f|] eqn:Hf.
  2:{ unfold pbind, get_frame in Hrun. rewrite Hf in Hrun.
      cbn in Hrun. injection Hrun as <- <-. left. eauto. }
  rewrite (run_bind_ok _ _ _ _ _ (get_frame_ok _ _ _ Hf)) in Hrun.
  destruct (pk_extra f) as [|limits_idx limits_val a] eqn:Hx.
  { unfold lift in Hrun. injection Hrun as <- <-. left. eauto. }
  destruct (frame_areas simpson points limits_idx) as [areas|e] eqn:Ha.
  2:{ unfold pbind, lift in Hrun. injection Hrun as <- <-. left. eauto. }
  erewrite run_bind_ok in Hrun by (unfold lift; reflexivity).
  erewrite run_bind_ok in Hrun by (unfold set_frame; reflexivity).
  erewrite dict_setitem_same in Hrun by (cbn [dicts]; eassumption).
  cbn [chromas frames dicts] in Hrun. injection Hrun as <- <-.
  right. exists entries, r, f, limits_idx, limits_val, a, areas.
  repeat split; assumption.
Qed.

(** [peak_integration] changes no chromatogram table, no dictionary and no
    row of a table of peaks, whether it returns or raises. *)
Lemma peak_integration_same_rows (g : option nat) (chroma_data peaks_info : nat)
    (h : heap) :
  same_rows h (snd (peak_integration simpson g chroma_data peaks_info h)).
Proof.
  unfold peak_integration.
  destruct (get_chroma chroma_data h) as [[c|e] h1] eqn:Hc.
  2:{ rewrite (run_bind_raise _ _ _ _ _ Hc). unfold get_chroma, deref in Hc.
      destruct (nth_error (chromas h) chroma_data); inversion Hc. apply same_rows_refl. }
  assert (h1 = h) as ->.
  { unfold get_chroma, deref in Hc.
    destruct (nth_error (chromas h) chroma_data); inversion Hc; reflexivity. }
  rewrite (run_bind_ok _ _ _ _ _ Hc).
  destruct g as [d|]; [|apply same_rows_refl].
  erewrite run_bind_ok by reflexivity.
  destruct (nth_error (dicts h) d) as [entries|] eqn:Hd.
  2:{ unfold pbind, get_dict. rewrite Hd. cbn. apply same_rows_refl. }
  rewrite (run_bind_ok _ _ _ _ _ (get_dict_ok _ _ _ Hd)).
  assert (Hinv : same_rows h
            (snd (for_each (keys entries) (integration_body simpson (channel c) d) h))).
  { apply for_each_invariant; [|apply same_rows_refl].
    intros key h3 _ Hh3.
    destruct (integration_body _ _ _ key h3) as [res h4] eqn:Hb; cbn [snd].
    apply integration_body_run in Hb.
    destruct Hb as [[-> _] | (en & r & f & li & lv & a & ar & _ & _ & Hf & _ & _ & _ & ->)];
      [exact Hh3|].
    apply (same_rows_set_frame h h3 r f); auto. }
  unfold pbind.
  destruct (for_each (keys entries) _ h) as [[[]|e] h2]; cbn [snd] in *; exact Hinv.
Qed.

(** When [peak_integration] returns, it returns the dictionary bound to the
    module-level name, whatever its second argument, and every table of
    that dictionary carries an 'Area' column. *)
Lemma peak_integration_in_place (g : option nat) (chroma_data peaks_info : nat)
    (h : heap) (d : nat) (h' : heap) :
  peak_integration simpson g chroma_data peaks_info h = (Ok d, h') ->
  g = Some d /\
  exists entries,
    nth_error (dicts h) d = Some entries /\
    forall k, In k (keys entries) ->
      exists f, table_of h' d k = Some f /\ has_area f.
Proof.
  unfold peak_integration. intros Hrun.
  apply pbind_run in Hrun. destruct Hrun as [(c & h1 & Hc & Hrun) | (e & _ & He)];
    [|discriminate].
  assert (h1 = h) as ->.
  { unfold get_chroma, deref in Hc.
    destruct (nth_error (chromas h) chroma_data); inversion Hc; reflexivity. }
  destruct g as [g|]; [|discriminate].
  erewrite run_bind_ok in Hrun by reflexivity.
  apply pbind_run in Hrun.
  destruct Hrun as [(entries & h1 & Hd & Hrun) | (e & _ & He)]; [|discriminate].
  assert (h1 = h /\ nth_error (dicts h) g = Some entries) as [-> Hd'].
  { unfold get_dict, deref in Hd.
    destruct (nth_error (dicts h) g); inversion Hd; auto. }
  apply pbind_run in Hrun.
  destruct Hrun as [([] & h2 & Hloop & Hret) | (e & _ & He)]; [|discriminate].
  injection Hret as <- <-. split; [reflexivity|].
  exists entries. split; [exact Hd'|].
  set (I := fun h2 : heap => dicts h2 = dicts h).
  set (P := fun (k : interval) (h2 : heap) =>
         exists f, table_of h2 g k = Some f /\ has_area f).
  refine (proj1 (proj2 (for_each_ok I P _ _ _ h h2 eq_refl Hloop))).
  intros key h3 h4 _ Hh3 Hb. apply integration_body_run in Hb.
  destruct Hb as [[_ [e He]]
                 | (en & r & f & li & lv & a & ar & Hen & Hk & Hf & _ & _ & _ & ->)];
    [discriminate|].
  split; [exact Hh3|]. split.
  - exists (mk_peaks (pk_rows f) (with_limits li lv (Some ar))).
    split.
    + unfold table_of. cbn [dicts frames]. rewrite Hen, Hk.
      apply nth_error_update_same. apply nth_error_Some. congruence.
    + do 3 eexists. reflexivity.
  - intros b (fb & Hb & Hlim). unfold P, table_of in *. cbn [dicts frames].
    destruct (nth_error (dicts h3) g) as [en'|]; [|discriminate].
    destruct (dict_get en' b) as [rb|]; [|discriminate].
    destruct (Nat.eq_dec r rb) as [<-|Hne].
    + eexists. split.
      * apply nth_error_update_same. apply nth_error_Some. congruence.
      * do 3 eexists. reflexivity.
    + exists fb. split; [|exact Hlim].
      rewrite nth_error_update_other by exact Hne. exact Hb.
Qed.

End IntegrationFacts.

Lemma in_interval_spec (iv : interval) (pk : peak) :
  in_interval iv pk = true <-> fst iv < index pk < snd iv.
Proof.
  unfold in_interval. rewrite andb_true_iff, !Z.ltb_lt. reflexivity.
Qed.

(** C6: [peak_finder] returns a dictionary in which, for each interval
    [[s, e]] given, the table under that interval holds a detected peak iff
    [s < peak.index < e] (so a peak inside several intervals is in the table
    of each, and one at a boundary is in neither); the dictionary has no
    other key, so a peak inside no interval is in none of its tables; and
    the later stages, [limits_finder] and [peak_integration], whether they
    return or raise, leave the rows of every table as they are. *)
Theorem interval_assignment (h : heap) (data : nat) (intervals : list interval)
    (c : chroma) :
  nth_error (chromas h) data = Some c ->
  exists pre d h',
    pre_peak_data (channel c) = Ok pre /\
    peak_finder data intervals h = (Ok d, h') /\
    (forall iv, In iv intervals ->
       exists f, table_of h' d iv = Some f /\
                 forall pk, In pk (pk_rows f) <->
                            In pk pre /\ fst iv < index pk < snd iv) /\
    (forall k f, table_of h' d k = Some f -> In k intervals) /\
    (forall pk, (forall iv, In iv intervals -> ~ fst iv < index pk < snd iv) ->
       forall k f, table_of h' d k = Some f -> ~ In pk (pk_rows f)) /\
    (forall simpson min_slope g arg k,
       let h2 := snd (limits_finder data d min_slope h') in
       let h3 := snd (peak_integration simpson g data arg h2) in
       option_map pk_rows (table_of h2 d k) = option_map pk_rows (table_of h' d k) /\
       option_map pk_rows (table_of h3 d k) = option_map pk_rows (table_of h' d k)).
Proof.
  intros Hc. destruct (pre_peak_data_total (channel c)) as [pre Hpre].
  destruct (peak_finder_spec h data intervals c pre Hc Hpre)
    as (fs & entries & Hrun & Hkeys & Htab).
  exists pre, (length (dicts h)), (mk_heap (chromas h) (frames h ++ fs) (dicts h ++ [entries])).
  split; [exact Hpre|]. split; [exact Hrun|].
  assert (Hmem : forall iv, In iv intervals ->
            exists f, table_of (mk_heap (chromas h) (frames h ++ fs) (dicts h ++ [entries]))
                        (length (dicts h)) iv = Some f /\
                      forall pk, In pk (pk_rows f) <->
                                 In pk pre /\ fst iv < index pk < snd iv).
  { intros iv Hiv. apply Hkeys in Hiv. apply dict_get_keys in Hiv.
    destruct Hiv as [r Hr].
    exists (mk_peaks (filter (in_interval iv) pre) no_extra). split.
    - unfold table_of. cbn [dicts frames]. rewrite nth_error_snoc, Hr.
      apply Htab. exact Hr.
    - intros pk. cbn [pk_rows]. rewrite filter_In, in_interval_spec. reflexivity. }
  assert (Hkey : forall k f,
            table_of (mk_heap (chromas h) (frames h ++ fs) (dicts h ++ [entries]))
              (length (dicts h)) k = Some f -> In k intervals).
  { intros k f Hk. unfold table_of in Hk. cbn [dicts frames] in Hk.
    rewrite nth_error_snoc in Hk.
    destruct (dict_get entries k) as [r|] eqn:Hr; [|discriminate].
    apply Hkeys. apply dict_get_keys. eauto. }
  split; [exact Hmem|]. split; [exact Hkey|]. split.
  - intros pk Hnone k f Hk Hin.
    pose proof (Hkey k f Hk) as Hiv.
    destruct (Hmem k Hiv) as (f' & Hf' & Hrows).
    rewrite Hk in Hf'. injection Hf' as <-.
    apply Hrows in Hin. destruct Hin as [_ Hin]. exact (Hnone k Hiv Hin).
  - intros simpson min_slope g arg k. cbv zeta.
    set (h' := mk_heap (chromas h) (frames h ++ fs) (dicts h ++ [entries])).
    pose proof (limits_finder_same_rows data (length (dicts h)) min_slope h') as H2.
    pose proof (peak_integration_same_rows simpson g data arg
                  (snd (limits_finder data (length (dicts h)) min_slope h'))) as H3.
    split.
    + apply same_rows_table_of. exact H2.
    + rewrite (same_rows_table_of _ _ _ _ H3). apply same_rows_table_of. exact H2.
Qed.

Lemma interval_assignment_witness :
  exists pre d h',
    pre_peak_data (channel spike_chroma) = Ok pre /\
    peak_finder 0 [(0, 20); (11, 30)] spike_heap = (Ok d, h') /\
    (forall iv, In iv [(0, 20); (11, 30)] ->
       exists f, table_of h' d iv = Some f /\
                 forall pk, In pk (pk_rows f) <->
                            In pk pre /\ fst iv < index pk < snd iv) /\
    (forall k f, table_of h' d k = Some f -> In k [(0, 20); (11, 30)]) /\
    (forall pk, (forall iv, In iv [(0, 20); (11, 30)] -> ~ fst iv < index pk < snd iv) ->
       forall k f, table_of h' d k = Some f -> ~ In pk (pk_rows f)) /\
    (forall simpson min_slope g arg k,
       let h2 := snd (limits_finder 0 d min_slope h') in
       let h3 := snd (peak_integration simpson g 0 arg h2) in
       option_map pk_rows (table_of h2 d k) = option_map pk_rows (table_of h' d k) /\
       option_map pk_rows (table_of h3 d k) = option_map pk_rows (table_of h' d k)).
Proof.
  apply (interval_assignment spike_heap 0 [(0, 20); (11, 30)] spike_chroma).
  reflexivity.
Defined.

(** ** The boundary search *)

Lemma getitem_in_range (l : list Z) (j : Z) :
  0 <= j < len l -> getitem l j = Ok (nth (Z.to_nat j) l 0).
Proof.
  intros Hj. unfold getitem.
  destruct (Z.ltb_spec j 0); [lia|].
  destruct (Z.leb_spec 0 j); [|lia].
  destruct (Z.ltb_spec j (len l)); [|lia]. reflexivity.
Qed.

Lemma in_range (a b j : Z) : In j (range a b) <-> a <= j < b.
Proof.
  unfold range. rewrite in_map_iff. split.
  - intros (k & Hk & Hin). apply in_seq in Hin. lia.
  - intros Hj. exists (Z.to_nat (j - a)). split; [lia|]. apply in_seq. lia.
Qed.

(** A scan over positions inside the arrays never raises.  It stops at the
    first position of [js] whose slope is below [min_slope], and leaves the
    two ["None"] when there is none. *)
Lemma scan_first (y dy : list Z) (min_slope : Z) (js : list Z) :
  len y = len dy ->
  (forall j, In j js -> 0 <= j < len dy) ->
  (scan y dy min_slope js = Ok (NoneStr, NoneStr) /\
   forall j, In j js -> min_slope <= Z.abs (nth (Z.to_nat j) dy 0)) \/
  (exists before j after,
     js = before ++ j :: after /\
     (forall k, In k before -> min_slope <= Z.abs (nth (Z.to_nat k) dy 0)) /\
     Z.abs (nth (Z.to_nat j) dy 0) < min_slope /\
     scan y dy min_slope js = Ok (Num j, Num (nth (Z.to_nat j) y 0))).
Proof.
  intros Hlen. induction js as [|j js IH]; intros Hin.
  - left. split; [reflexivity | contradiction].
  - cbn [scan].
    rewrite (getitem_in_range dy j) by (apply Hin; left; reflexivity). cbn [bind].
    destruct (Z.ltb_spec (Z.abs (nth (Z.to_nat j) dy 0)) min_slope) as [Hlt|Hge].
    + right. exists [], j, js. split; [reflexivity|]. split; [contradiction|].
      split; [exact Hlt|].
      rewrite (getitem_in_range y j) by (rewrite Hlen; apply Hin; left; reflexivity).
      reflexivity.
    + destruct (IH (fun k Hk => Hin k (or_intror Hk)))
        as [[Hnone Hall] | (before & k & after & Hjs & Hbefore & Hk & Hscan)].
      * left. split; [exact Hnone|]. intros k [<-|Hk]; [exact Hge | apply Hall; exact Hk].
      * right. exists (j :: before), k, after. split; [rewrite Hjs; reflexivity|].
        split; [|split; assumption].
        intros k' [<-|Hk']; [exact Hge | apply Hbefore; exact Hk'].
Qed.

Lemma in_shifted_seq (a : Z) (s n : nat) (k : Z) :
  In k (map (fun i => a + Z.of_nat i) (seq s n))
  <-> a + Z.of_nat s <= k < a + Z.of_nat s + Z.of_nat n.
Proof.
  rewrite in_map_iff. split.
  - intros (i & Hi & Hin). apply in_seq in Hin. lia.
  - intros Hk. exists (Z.to_nat (k - a)). split; [lia|]. apply in_seq. lia.
Qed.

Lemma seq_split (a : Z) (n s : nat) (j : Z) (before after : list Z) :
  map (fun i => a + Z.of_nat i) (seq s n) = before ++ j :: after ->
  forall k, (In k before <-> a + Z.of_nat s <= k < j) /\
            (In k after <-> j < k < a + Z.of_nat s + Z.of_nat n).
Proof.
  revert s before. induction n as [|n IH]; intros s before Hsplit k.
  - destruct before; discriminate.
  - cbn [seq map] in Hsplit. destruct before as [|x before].
    + injection Hsplit as Hj Hafter. subst after. rewrite in_shifted_seq.
      cbn [In]. lia.
    + injection Hsplit as Hx Hrest.
      assert (Hj : a + Z.of_nat (S s) <= j).
      { assert (Hin : In j (map (fun i => a + Z.of_nat i) (seq (S s) n)))
          by (rewrite Hrest; apply in_elt).
        apply in_shifted_seq in Hin. lia. }
      destruct (IH _ _ Hrest k) as [Hb Ha]. cbn [In]. rewrite Hb, Ha. lia.
Qed.

(** In [range(a, b)] the positions before [j] are those from [a] up to [j]. *)
Lemma range_split (a b j : Z) (before after : list Z) :
  range a b = before ++ j :: after ->
  forall k, In k before <-> a <= k < j.
Proof.
  unfold range. intros Hsplit k.
  rewrite (proj1 (seq_split _ _ _ _ _ _ Hsplit k)). cbn. lia.
Qed.

(** In [reversed(range(0, b))] the positions before [j] are those above [j],
    below [b]. *)
Lemma reversed_range_split (b j : Z) (before after : list Z) :
  rev (range 0 b) = before ++ j :: after ->
  forall k, In k before <-> j < k < b.
Proof.
  intros Hsplit k.
  assert (Hrange : range 0 b = rev after ++ j :: rev before).
  { rewrite <- (rev_involutive (range 0 b)), Hsplit, rev_app_distr.
    cbn [rev]. rewrite <- app_assoc. reflexivity. }
  assert (Hj : 0 <= j < b).
  { apply in_range. rewrite Hrange. apply in_elt. }
  unfold range in Hrange.
  rewrite in_rev, (proj2 (seq_split _ _ _ _ _ _ Hrange k)). cbn. lia.
Qed.

Lemma in_reversed_range (b j : Z) : In j (rev (range 0 b)) <-> 0 <= j < b.
Proof. rewrite <- in_rev. apply in_range. Qed.

Lemma scan_upward (y dy : list Z) (min_slope a b : Z) :
  len y = len dy -> 0 <= a -> b <= len dy ->
  exists li lv,
    scan y dy min_slope (range a b) = Ok (li, lv) /\
    side_found y dy min_slope a b true li lv.
Proof.
  intros Hlen Ha Hb.
  destruct (scan_first y dy min_slope (range a b) Hlen)
    as [[Hr Hnone] | (before & j & after & Hjs & Hbefore & Hj & Hr)].
  - intros j Hj. apply in_range in Hj. lia.
  - exists NoneStr, NoneStr. split; [exact Hr|]. left. repeat split.
    intros j Hj. apply Hnone. apply in_range. exact Hj.
  - exists (Num j), (Num (nth (Z.to_nat j) y 0)). split; [exact Hr|].
    assert (Hin : a <= j < b) by (apply in_range; rewrite Hjs; apply in_elt).
    right. exists j. repeat split; try assumption; try lia.
    intros k Hk Hkj. apply Hbefore. apply (range_split _ _ _ _ _ Hjs). lia.
Qed.

Lemma scan_downward (y dy : list Z) (min_slope b : Z) :
  len y = len dy -> b <= len dy ->
  exists li lv,
    scan y dy min_slope (rev (range 0 b)) = Ok (li, lv) /\
    side_found y dy min_slope 0 b false li lv.
Proof.
  intros Hlen Hb.
  destruct (scan_first y dy min_slope (rev (range 0 b)) Hlen)
    as [[Hr Hnone] | (before & j & after & Hjs & Hbefore & Hj & Hr)].
  - intros j Hj. apply in_reversed_range in Hj. lia.
  - exists NoneStr, NoneStr. split; [exact Hr|]. left. repeat split.
    intros j Hj. apply Hnone. apply in_reversed_range. exact Hj.
  - exists (Num j), (Num (nth (Z.to_nat j) y 0)). split; [exact Hr|].
    assert (Hin : 0 <= j < b) by (apply in_reversed_range; rewrite Hjs; apply in_elt).
    right. exists j. repeat split; try assumption; try lia.
    intros k Hk Hkj. apply Hbefore. apply (reversed_range_split _ _ _ _ Hjs). lia.
Qed.

(** What [limits_finder] computes for a peak at [p] inside the signal: it
    raises nothing; the right limit is the first position from [p + width]
    upward with a slope below [min_slope]; the left limit is the first such
    position from [p - width - 1] downward. *)
Lemma peak_limits_spec (y dy : list Z) (min_slope p : Z) :
  len y = len dy -> 0 <= p < len dy ->
  exists li lv,
    peak_limits y dy min_slope p = Ok (li, lv) /\
    side_found y dy min_slope (p + width) (len dy) true (snd li) (snd lv) /\
    side_found y dy min_slope 0 (p - width) false (fst li) (fst lv).
Proof.
  intros Hlen Hp. unfold peak_limits.
  destruct (scan_upward y dy min_slope (p + width) (len dy) Hlen)
    as (ri & rv & Hr & Hright); [unfold width; lia | lia |].
  destruct (scan_downward y dy min_slope (p - width) Hlen)
    as (li & lv & Hl & Hleft); [unfold width; lia |].
  rewrite Hr. cbn [bind]. rewrite Hl. cbn [bind fst snd].
  do 2 eexists. split; [reflexivity|]. cbn [fst snd]. split; assumption.
Qed.

(** ** The stages on the two chromatograms *)

Example pre_peak_data_spike : pre_peak_data spike = Ok [(11, 5000)].
Proof. vm_compute. reflexivity. Qed.

Example pre_peak_data_plateau :
  pre_peak_data [0; 5000; 5000; 5000; 0] = Ok [].
Proof. vm_compute. reflexivity. Qed.

Example first_diff_spike :
  first_diff spike_chroma
  = repeat 0 9 ++ [1990; 3000; -3000; -1990] ++ repeat 0 10 ++ [-10].
Proof. vm_compute. reflexivity. Qed.


(** C1 (the code departs from it): for the peak of [spike], whose limits
    are 5 and 16, the samples handed to the quadrature are those whose
    intensity lies strictly between 5 and 16: the 21 baseline samples of the
    whole signal, positions 0 to 4 and 17 to 23 among them, and none of the
    three samples of the peak; the slice [signal[5:17]] is another
    sequence. *)
Theorem integration_selects_by_value :
  select_samples spike (Num 5, Num 16) = Ok (repeat 10 21) /\
  slice_incl spike 5 16 = repeat 10 5 ++ [2000; 5000; 2000] ++ repeat 10 4 /\
  forall simpson,
    frame_areas simpson spike [(Num 5, Num 16)]
    = (a <- simpson (repeat 10 21) ;; Ok [a]).
Proof.
  split; [reflexivity|]. split; [reflexivity|].
  intros simpson. cbn [frame_areas].
  change (select_samples spike (Num 5, Num 16)) with (Ok (repeat 10 21)).
  cbn [bind]. destruct (simpson (repeat 10 21)); reflexivity.
Qed.

(** C3 (the code departs from it): for the peak of [edge_spike] at position
    3 the backward scan has no position to visit; [limits_finder] raises
    nothing, stores the string ["None"] as left limit, not the number 0, and
    keeps the peak in its table.  [peak_integration] does not skip that
    peak: whatever the quadrature routine, the script stops with a
    [TypeError], and no table with an area is returned. *)
Theorem unresolved_limit_stops_integration :
  (exists h,
     before_integration edge_spike [(0, 12)] 5 empty_heap = (Ok 0%nat, h) /\
     table_of h 0 (0, 12)
     = Some (mk_peaks [(3, 5000)]
               (with_limits [(NoneStr, Num 8)] [(NoneStr, Num 10)] None))) /\
  NoneStr <> Num 0 /\
  forall simpson,
    fst (script simpson edge_spike [(0, 12)] empty_heap) = Raise TypeError.
Proof.
  split; [eexists; split; vm_compute; reflexivity|].
  split; [discriminate|].
  intros simpson. vm_compute. reflexivity.
Qed.

(** ** When the boundary stage returns *)

Lemma frame_limits_total (y dy : list Z) (min_slope : Z) (peak_idx : list Z) :
  len y = len dy ->
  (forall p, In p peak_idx -> 0 <= p < len dy) ->
  exists lims, frame_limits y dy min_slope peak_idx = Ok lims.
Proof.
  intros Hlen. induction peak_idx as [|p rest IH]; intros Hin.
  - eexists. reflexivity.
  - cbn [frame_limits].
    destruct (peak_limits_spec y dy min_slope p Hlen (Hin p (or_introl eq_refl)))
      as (li & lv & Hp & _).
    destruct (IH (fun q Hq => Hin q (or_intror Hq))) as [lims Hrest].
    rewrite Hp, Hrest. eexists. reflexivity.
Qed.

Lemma limits_body_ok (y dy : list Z) (min_slope : Z) (d : nat) (key : interval)
    (h : heap) entries r f lims :
  nth_error (dicts h) d = Some entries -> dict_get entries key = Some r ->
  nth_error (frames h) r = Some f ->
  frame_limits y dy min_slope (map index (pk_rows f)) = Ok lims ->
  limits_body y dy min_slope d key h
  = (Ok tt,
     mk_heap (chromas h)
       (update (frames h) r
          (mk_peaks (pk_rows f)
             (with_limits (fst lims) (snd lims)
                match pk_extra f with no_extra => None | with_limits _ _ a => a end)))
       (dicts h)).
Proof.
  intros Hd Hk Hf Hl. unfold limits_body.
  rewrite (run_bind_ok _ _ _ _ _ (dict_getitem_ok _ _ _ _ _ Hd Hk)).
  rewrite (run_bind_ok _ _ _ _ _ (get_frame_ok _ _ _ Hf)).
  erewrite run_bind_ok by (unfold lift; rewrite Hl; reflexivity).
  erewrite run_bind_ok by (unfold set_frame; reflexivity).
  erewrite dict_setitem_same by (cbn [dicts]; eassumption).
  reflexivity.
Qed.

Lemma len_map {A B : Type} (f : A -> B) (l : list A) : len (map f l) = len l.
Proof. unfold len. rewrite length_map. reflexivity. Qed.

(** On a chromatogram table whose columns have one length, and a dictionary
    whose tables hold positions of the signal, [limits_finder] raises
    nothing: it returns the dictionary. *)
Lemma limits_finder_returns (chroma_data peaks_data : nat) (min_slope : Z) (h : heap)
    (c : chroma) (entries : list (interval * nat)) :
  nth_error (chromas h) chroma_data = Some c ->
  len (channel c) = len (first_diff c) ->
  nth_error (dicts h) peaks_data = Some entries ->
  rows_inside h entries (len (first_diff c)) ->
  exists h', limits_finder chroma_data peaks_data min_slope h = (Ok peaks_data, h').
Proof.
  intros Hc Hlen Hd Hrows. unfold limits_finder.
  rewrite (run_bind_ok _ _ _ _ _ (get_chroma_ok _ _ _ Hc)).
  rewrite (run_bind_ok _ _ _ _ _ (get_dict_ok _ _ _ Hd)).
  destruct (for_each_returns (same_rows h) (fun _ _ => True) (keys entries)
              (limits_body (channel c) (map Z.abs (first_diff c)) min_slope peaks_data))
    with (h := h) as (h' & Hloop & _).
  - intros key h2 Hkey Hh2.
    apply dict_get_keys in Hkey. destruct Hkey as [r Hr].
    destruct (Hrows key r Hr) as (rows & Hnth & Hin).
    destruct Hh2 as (Hch & Hdi & Hfr).
    rewrite <- Hfr, nth_error_map in Hnth.
    destruct (nth_error (frames h2) r) as [f|] eqn:Hf; [|discriminate].
    injection Hnth as Hnth.
    destruct (frame_limits_total (channel c) (map Z.abs (first_diff c)) min_slope
                (map index (pk_rows f))) as [lims Hl].
    { rewrite len_map. exact Hlen. }
    { intros p Hp. rewrite len_map. apply in_map_iff in Hp.
      destruct Hp as (pk & <- & Hpk). apply Hin. rewrite <- Hnth. exact Hpk. }
    assert (Hd2 : nth_error (dicts h2) peaks_data = Some entries) by (rewrite Hdi; exact Hd).
    eexists. split; [apply (limits_body_ok _ _ _ _ _ _ _ _ _ _ Hd2 Hr Hf Hl)|].
    split; [|auto].
    apply (same_rows_set_frame h h2 r f); [repeat split; assumption | exact Hf | reflexivity].
  - apply same_rows_refl.
  - rewrite (run_bind_ok _ _ _ _ _ Hloop). eexists. reflexivity.
Qed.

Lemma read_chromatogram_stage_run (y : list Z) (h : heap) :
  y <> [] ->
  read_chromatogram_stage y h
  = (Ok (length (chromas h)),
     mk_heap (chromas h ++ [mk_chroma y (first_derivative y) (second_derivative y)])
       (frames h) (dicts h)).
Proof.
  intros Hne. unfold read_chromatogram_stage.
  erewrite run_bind_ok
    by (unfold lift; rewrite (read_chromatogram_nonempty y Hne); reflexivity).
  reflexivity.
Qed.

(** The three stages before the integration raise nothing on a non-empty
    signal: they return a new dictionary in which the table of each interval
    holds the detected peaks strictly inside it, with the limits of these
    peaks. *)
Lemma before_integration_returns (y : list Z) (intervals : list interval)
    (min_slope : Z) (h : heap) :
  y <> [] ->
  exists pre h',
    pre_peak_data y = Ok pre /\
    before_integration y intervals min_slope h = (Ok (length (dicts h)), h') /\
    nth_error (chromas h') (length (chromas h))
    = Some (mk_chroma y (first_derivative y) (second_derivative y)) /\
    (exists entries, nth_error (dicts h') (length (dicts h)) = Some entries /\
                     forall k, In k (keys entries) <-> In k intervals) /\
    forall k, In k intervals ->
      exists f, table_of h' (length (dicts h)) k = Some f /\
                pk_rows f = filter (in_interval k) pre /\
                limits_of y (map Z.abs (first_derivative y)) min_slope f.
Proof.
  intros Hne. destruct (pre_peak_data_total y) as [pre Hpre].
  set (c := mk_chroma y (first_derivative y) (second_derivative y)).
  set (h1 := mk_heap (chromas h ++ [c]) (frames h) (dicts h)).
  assert (Hc : nth_error (chromas h1) (length (chromas h)) = Some c)
    by apply nth_error_snoc.
  destruct (peak_finder_spec h1 (length (chromas h)) intervals c pre Hc Hpre)
    as (fs & entries & Hfind & Hkeys & Htab).
  cbn [chromas frames dicts h1] in Hfind, Htab.
  set (h2 := mk_heap (chromas h ++ [c]) (frames h ++ fs) (dicts h ++ [entries])) in *.
  assert (Hd : nth_error (dicts h2) (length (dicts h)) = Some entries)
    by apply nth_error_snoc.
  assert (Hinside : rows_inside h2 entries (len (first_diff c))).
  { intros k r Hr. exists (filter (in_interval k) pre). cbn [frames h2].
    rewrite nth_error_map, (Htab k r Hr). split; [reflexivity|].
    intros pk Hpk. apply filter_In in Hpk. destruct Hpk as [Hpk _].
    destruct (pre_peak_data_sound y pre pk Hpre Hpk) as (i & Hi & _ & H1 & H2 & _).
    cbn [first_diff c]. unfold len. rewrite first_derivative_length. lia. }
  destruct (limits_finder_returns (length (chromas h)) (length (dicts h)) min_slope h2
              c entries Hc) as [h3 Hlim]; try assumption.
  { cbn [channel first_diff c]. unfold len. rewrite first_derivative_length. reflexivity. }
  exists pre, h3. split; [exact Hpre|].
  pose proof (limits_finder_same_rows (length (chromas h)) (length (dicts h)) min_slope h2)
    as Hsame.
  rewrite Hlim in Hsame. cbn [snd] in Hsame.
  destruct (limits_finder_in_place _ _ _ _ _ _ Hlim)
    as (_ & c' & entries' & Hc' & Hd' & Hlimits).
  assert (Hcc : Some c' = Some c) by (rewrite <- Hc'; exact Hc).
  injection Hcc as ->. clear Hc'.
  rewrite Hd in Hd'. injection Hd' as <-.
  destruct Hsame as (Hch & Hdi & Hrows).
  split; [|split; [|split]].
  - unfold before_integration.
    rewrite (run_bind_ok _ _ _ _ _ (read_chromatogram_stage_run y h Hne)).
    fold c. fold h1. rewrite (run_bind_ok _ _ _ _ _ Hfind). exact Hlim.
  - rewrite Hch. exact Hc.
  - exists entries. split; [rewrite Hdi; exact Hd | exact Hkeys].
  - intros k Hk. apply Hkeys in Hk as Hk'.
    destruct (Hlimits k Hk') as (f & Hf & Hlims).
    exists f. split; [exact Hf|]. split; [|exact Hlims].
    assert (Hopt : option_map pk_rows (table_of h3 (length (dicts h)) k)
                   = option_map pk_rows (table_of h2 (length (dicts h)) k)).
    { apply same_rows_table_of. repeat split; assumption. }
    rewrite Hf in Hopt. cbn [option_map] in Hopt.
    apply dict_get_keys in Hk'. destruct Hk' as [r Hr].
    unfold table_of in Hopt. rewrite Hd, Hr in Hopt. cbn [frames h2] in Hopt.
    rewrite (Htab k r Hr) in Hopt. cbn [option_map pk_rows] in Hopt.
    injection Hopt as Hopt. exact Hopt.
Qed.

(** ** Signals without a peak *)

Lemma pre_peak_data_short (y : list Z) :
  (length y < 3)%nat -> pre_peak_data y = Ok [].
Proof.
  intros Hshort. destruct (pre_peak_data_total y) as [pre Hpre].
  destruct pre as [|pk pre]; [exact Hpre|].
  destruct (pre_peak_data_sound y _ pk Hpre (or_introl eq_refl))
    as (i & _ & _ & H1 & H2 & _).
  lia.
Qed.

Lemma script_run (simpson : list Z -> outcome float) (y : list Z)
    (intervals : list interval) (h : heap) (d : nat) (h3 : heap) :
  y <> [] ->
  before_integration y intervals 5 h = (Ok d, h3) ->
  script simpson y intervals h
  = peak_integration simpson (Some d) (length (chromas h)) d h3.
Proof.
  intros Hne Hrun. unfold before_integration in Hrun. unfold script.
  rewrite (run_bind_ok _ _ _ _ _ (read_chromatogram_stage_run y h Hne)) in Hrun.
  rewrite (run_bind_ok _ _ _ _ _ (read_chromatogram_stage_run y h Hne)).
  destruct (peak_finder (length (chromas h)) intervals
              (mk_heap
                 (chromas h ++ [mk_chroma y (first_derivative y) (second_derivative y)])
                 (frames h) (dicts h))) as [[d1|e] h2] eqn:Hfind.
  - rewrite (run_bind_ok _ _ _ _ _ Hfind) in Hrun.
    rewrite (run_bind_ok _ _ _ _ _ Hfind).
    rewrite (run_bind_ok _ _ _ _ _ Hrun). reflexivity.
  - rewrite (run_bind_raise _ _ _ _ _ Hfind) in Hrun. discriminate.
Qed.

Lemma integration_body_ok (simpson : list Z -> outcome float) (points : list Z)
    (d : nat) (key : interval) (h : heap) entries r f li lv a areas :
  nth_error (dicts h) d = Some entries -> dict_get entries key = Some r ->
  nth_error (frames h) r = Some f ->
  pk_extra f = with_limits li lv a ->
  frame_areas simpson points li = Ok areas ->
  integration_body simpson points d key h
  = (Ok tt,
     mk_heap (chromas h)
       (update (frames h) r (mk_peaks (pk_rows f) (with_limits li lv (Some areas))))
       (dicts h)).
Proof.
  intros Hd Hk Hf Hx Ha. unfold integration_body.
  rewrite (run_bind_ok _ _ _ _ _ (dict_getitem_ok _ _ _ _ _ Hd Hk)).
  rewrite (run_bind_ok _ _ _ _ _ (get_frame_ok _ _ _ Hf)).
  rewrite Hx.
  erewrite run_bind_ok by (unfold lift; rewrite Ha; reflexivity).
  erewrite run_bind_ok by (unfold set_frame; reflexivity).
  erewrite dict_setitem_same by (cbn [dicts]; eassumption).
  reflexivity.
Qed.

(** On a dictionary whose tables hold no peak, [peak_integration] returns,
    whatever the quadrature routine (it is not called). *)
Lemma peak_integration_without_peaks (simpson : list Z -> outcome float)
    (chroma_data arg d : nat) (h : heap) (c : chroma) (entries : list (interval * nat)) :
  nth_error (chromas h) chroma_data = Some c ->
  nth_error (dicts h) d = Some entries ->
  (forall k, In k (keys entries) -> exists f, table_of h d k = Some f /\ no_peak f) ->
  exists h',
    peak_integration simpson (Some d) chroma_data arg h = (Ok d, h') /\
    forall k, In k (keys entries) -> exists f, table_of h' d k = Some f /\ no_peak f.
Proof.
  intros Hc Hd Htab. unfold peak_integration.
  rewrite (run_bind_ok _ _ _ _ _ (get_chroma_ok _ _ _ Hc)).
  erewrite run_bind_ok by reflexivity.
  rewrite (run_bind_ok _ _ _ _ _ (get_dict_ok _ _ _ Hd)).
  set (I := fun h2 : heap =>
         dicts h2 = dicts h /\
         forall k, In k (keys entries) -> exists f, table_of h2 d k = Some f /\ no_peak f).
  destruct (for_each_returns I (fun _ _ => True) (keys entries)
              (integration_body simpson (channel c) d))
    with (h := h) as (h' & Hloop & [_ HI] & _).
  - intros key h2 Hkey [Hdi Hall].
    destruct (Hall key Hkey) as (f & Hf & Hrows & lv & a & Hx).
    assert (Hd2 : nth_error (dicts h2) d = Some entries) by (rewrite Hdi; exact Hd).
    unfold table_of in Hf. rewrite Hd2 in Hf.
    destruct (dict_get entries key) as [r|] eqn:Hr; [|discriminate].
    eexists. split.
    { apply (integration_body_ok simpson _ _ _ _ _ _ _ _ _ _ [] Hd2 Hr Hf Hx).
      reflexivity. }
    split; [|auto]. split; [exact Hdi|].
    intros k Hk. destruct (Hall k Hk) as (fk & Hfk & Hnone).
    unfold table_of in *. cbn [dicts frames]. rewrite Hd2 in *.
    destruct (dict_get entries k) as [rk|]; [|discriminate].
    destruct (Nat.eq_dec r rk) as [<-|Hne].
    + eexists. split.
      * apply nth_error_update_same. apply nth_error_Some. congruence.
      * split; [exact Hrows|]. do 2 eexists. reflexivity.
    + exists fk. split; [|exact Hnone].
      rewrite nth_error_update_other by exact Hne. exact Hfk.
  - split; [reflexivity | exact Htab].
  - exists h'. rewrite (run_bind_ok _ _ _ _ _ Hloop). split; [reflexivity | exact HI].
Qed.

(** On a non-empty signal in which no peak is detected, every stage of the
    script runs and the script returns its dictionary, with a table without
    peaks under each interval. *)
Lemma script_without_peaks (simpson : list Z -> outcome float) (y : list Z)
    (intervals : list interval) (h : heap) :
  y <> [] -> pre_peak_data y = Ok [] ->
  exists h',
    script simpson y intervals h = (Ok (length (dicts h)), h') /\
    forall k, In k intervals ->
      exists f, table_of h' (length (dicts h)) k = Some f /\ no_peak f.
Proof.
  intros Hne Hnone.
  destruct (before_integration_returns y intervals 5 h Hne)
    as (pre & h3 & Hpre & Hrun & Hc & (entries & Hd & Hkeys) & Htab).
  rewrite Hnone in Hpre. injection Hpre as <-.
  destruct (peak_integration_without_peaks simpson (length (chromas h))
              (length (dicts h)) (length (dicts h)) h3 _ entries Hc Hd)
    as (h4 & Hint & Hfinal).
  - intros k Hk. apply Hkeys in Hk.
    destruct (Htab k Hk) as (f & Hf & Hrows & lims & a & Hlims & Hx).
    exists f. split; [exact Hf|].
    cbn [filter] in Hrows. rewrite Hrows in Hlims.
    cbn [map frame_limits] in Hlims. injection Hlims as <-.
    split; [exact Hrows|]. do 2 eexists. exact Hx.
  - exists h4. rewrite (script_run simpson y intervals h _ _ Hne Hrun).
    split; [exact Hint|]. intros k Hk. apply Hfinal. apply Hkeys. exact Hk.
Qed.

Lemma filter_reversed_interval (s e : Z) (pre : list peak) :
  e <= s -> filter (in_interval (s, e)) pre = [].
Proof.
  intros Hse. induction pre as [|pk pre IH]; [reflexivity|].
  cbn [filter]. rewrite IH.
  destruct (in_interval (s, e) pk) eqn:Hin; [|reflexivity].
  apply in_interval_spec in Hin. cbn [fst snd] in Hin. lia.
Qed.

(** ** Input validation *)

(** C5, as stated, fails: on the signal [1, 2], of length 2, with the
    interval [[5, 3]], whose start is above its end, [read_chromatogram]
    returns its table, the stages before the integration return a
    dictionary with an empty table under the interval, and the whole script
    returns, whatever the quadrature routine: nothing is rejected. *)
Lemma short_signal_and_reversed_interval_accepted :
  read_chromatogram [1; 2] = Ok (mk_chroma [1; 2] [1; -2] [-3; 2]) /\
  (exists h,
     before_integration [1; 2] [(5, 3)] 5 empty_heap = (Ok 0%nat, h) /\
     table_of h 0 (5, 3) = Some (mk_peaks [] (with_limits [] [] None))) /\
  forall simpson,
    fst (script simpson [1; 2] [(5, 3)] empty_heap) = Ok 0%nat.
Proof.
  split; [reflexivity|].
  split; [eexists; split; vm_compute; reflexivity|].
  intros simpson. vm_compute. reflexivity.
Qed.

(** C5, amended: no stage validates the length of the signal or the order of
    an interval's ends.  On every non-empty signal, with any intervals, the
    derivative, detection and boundary stages run and return; the table of
    an interval whose start is not below its end is empty; and on a signal
    of length 1 or 2 no peak is detected, the integration runs as well, and
    the script returns a dictionary with an empty table under every
    interval. *)
Theorem no_input_validation (y : list Z) (intervals : list interval) (h : heap) :
  y <> [] ->
  exists pre d h',
    pre_peak_data y = Ok pre /\
    before_integration y intervals 5 h = (Ok d, h') /\
    (forall s e, In (s, e) intervals -> e <= s ->
       exists f, table_of h' d (s, e) = Some f /\ pk_rows f = []) /\
    ((length y < 3)%nat ->
     pre = [] /\
     forall simpson,
       exists h'',
         script simpson y intervals h = (Ok d, h'') /\
         forall k, In k intervals ->
           exists f, table_of h'' d k = Some f /\ pk_rows f = []).
Proof.
  intros Hne.
  destruct (before_integration_returns y intervals 5 h Hne)
    as (pre & h' & Hpre & Hrun & _ & _ & Htab).
  exists pre, (length (dicts h)), h'.
  split; [exact Hpre|]. split; [exact Hrun|]. split.
  - intros s e Hin Hse. destruct (Htab (s, e) Hin) as (f & Hf & Hrows & _).
    exists f. split; [exact Hf|]. rewrite Hrows. apply filter_reversed_interval. exact Hse.
  - intros Hshort. pose proof (pre_peak_data_short y Hshort) as Hnone.
    split; [congruence|].
    intros simpson.
    destruct (script_without_peaks simpson y intervals h Hne Hnone) as (h'' & Hs & Hall).
    exists h''. split; [exact Hs|].
    intros k Hk. destruct (Hall k Hk) as (f & Hf & Hrows & _). eauto.
Qed.

Lemma no_input_validation_witness :
  exists pre d h',
    pre_peak_data [1; 2] = Ok pre /\
    before_integration [1; 2] [(5, 3)] 5 empty_heap = (Ok d, h') /\
    (forall s e, In (s, e) [(5, 3)] -> e <= s ->
       exists f, table_of h' d (s, e) = Some f /\ pk_rows f = []) /\
    ((length [1; 2] < 3)%nat ->
     pre = [] /\
     forall simpson,
       exists h'',
         script simpson [1; 2] [(5, 3)] empty_heap = (Ok d, h'') /\
         forall k, In k [(5, 3)] ->
           exists f, table_of h'' d k = Some f /\ pk_rows f = []).
Proof.
  apply (no_input_validation [1; 2] [(5, 3)] empty_heap). discriminate.
Defined.

(** ** Effects of the stages *)

(** C9, as stated, fails: [limits_finder], called on the dictionary that
    [peak_finder] returned for [spike], returns that same dictionary object
    (reference 0), and the table of peaks under the interval, which its
    predecessor produced without limits, has been given its limits columns
    in place. *)
Lemma limits_finder_updates_its_argument :
  exists h1 h2,
    (c <~ read_chromatogram_stage spike ;; peak_finder c [(0, 20)]) empty_heap
    = (Ok 0%nat, h1) /\
    limits_finder 0 0 5 h1 = (Ok 0%nat, h2) /\
    table_of h1 0 (0, 20) = Some (mk_peaks [(11, 5000)] no_extra) /\
    table_of h2 0 (0, 20)
    = Some (mk_peaks [(11, 5000)]
              (with_limits [(Num 5, Num 16)] [(Num 10, Num 10)] None)).
Proof.
  do 2 eexists. repeat split; vm_compute; reflexivity.
Qed.

Lemma limits_finder_run_same_rows chroma_data peaks_data min_slope h r h' :
  limits_finder chroma_data peaks_data min_slope h = (r, h') -> same_rows h h'.
Proof.
  intros Hrun. pose proof (limits_finder_same_rows chroma_data peaks_data min_slope h) as H.
  rewrite Hrun in H. exact H.
Qed.

Lemma peak_integration_run_same_rows simpson g chroma_data arg h r h' :
  peak_integration simpson g chroma_data arg h = (r, h') -> same_rows h h'.
Proof.
  intros Hrun. pose proof (peak_integration_same_rows simpson g chroma_data arg h) as H.
  rewrite Hrun in H. exact H.
Qed.

Lemma table_of_key (h : heap) (d : nat) (k : interval) (f : peaks_frame)
    (entries : list (interval * nat)) :
  table_of h d k = Some f -> nth_error (dicts h) d = Some entries -> In k (keys entries).
Proof.
  unfold table_of. intros Hf Hd. rewrite Hd in Hf.
  destruct (dict_get entries k) as [r|] eqn:Hr; [|discriminate].
  apply dict_get_keys. eauto.
Qed.

(** C9, amended: [read_chromatogram] and [peak_finder] return newly made
    structures and change no existing one.  [limits_finder] and
    [peak_integration] change no chromatogram table, no dictionary and no
    row of a table of peaks, but they add their columns, in place, to the
    tables of the dictionary they work on, and they return that very
    dictionary. *)
Theorem stages_allocate_or_update_in_place (y : list Z) (intervals : list interval)
    (min_slope : Z) (h0 h1 h2 h3 : heap) (c d d' : nat) :
  read_chromatogram_stage y h0 = (Ok c, h1) ->
  peak_finder c intervals h1 = (Ok d, h2) ->
  limits_finder c d min_slope h2 = (Ok d', h3) ->
  (c = length (chromas h0) /\
   (exists t, chromas h1 = chromas h0 ++ [t] /\ channel t = y) /\
   frames h1 = frames h0 /\ dicts h1 = dicts h0) /\
  (d = length (dicts h1) /\
   chromas h2 = chromas h1 /\
   (exists fs, frames h2 = frames h1 ++ fs) /\
   (exists entries, dicts h2 = dicts h1 ++ [entries])) /\
  (d' = d /\ same_rows h2 h3 /\
   forall k f, table_of h3 d k = Some f -> has_limits f) /\
  (forall simpson d'' h4,
     peak_integration simpson (Some d') c d' h3 = (Ok d'', h4) ->
     d'' = d /\ same_rows h3 h4 /\
     forall k f, table_of h4 d k = Some f -> has_area f).
Proof.
  intros Hread Hfind Hlim.
  assert (Hne : y <> []).
  { intros ->. unfold read_chromatogram_stage, pbind, lift in Hread.
    rewrite read_chromatogram_empty in Hread. discriminate. }
  rewrite (read_chromatogram_stage_run y h0 Hne) in Hread.
  injection Hread as <- <-.
  set (t := mk_chroma y (first_derivative y) (second_derivative y)) in *.
  set (h1 := mk_heap (chromas h0 ++ [t]) (frames h0) (dicts h0)) in *.
  assert (Hc : nth_error (chromas h1) (length (chromas h0)) = Some t)
    by apply nth_error_snoc.
  destruct (pre_peak_data_total (channel t)) as [pre Hpre].
  destruct (peak_finder_spec h1 _ intervals t pre Hc Hpre)
    as (fs & entries & Hfind' & _ & _).
  rewrite Hfind in Hfind'. injection Hfind' as -> ->.
  destruct (limits_finder_in_place _ _ _ _ _ _ Hlim)
    as (-> & t' & entries' & _ & Hd2 & Hlimits).
  pose proof (limits_finder_run_same_rows _ _ _ _ _ _ Hlim) as Hsame.
  split; [|split; [|split]].
  - split; [reflexivity|]. split; [|split; reflexivity].
    exists t. split; reflexivity.
  - split; [reflexivity|]. split; [reflexivity|]. split; eexists; reflexivity.
  - split; [reflexivity|]. split; [exact Hsame|].
    intros k f Hf.
    assert (Hd3 : nth_error (dicts h3) (length (dicts h1)) = Some entries').
    { destruct Hsame as (_ & -> & _). exact Hd2. }
    destruct (Hlimits k (table_of_key _ _ _ _ _ Hf Hd3)) as (f' & Hf' & Hl).
    rewrite Hf in Hf'. injection Hf' as <-.
    exact (limits_of_has_limits _ _ _ _ Hl).
  - intros simpson d'' h4 Hint.
    destruct (peak_integration_in_place simpson _ _ _ _ _ _ Hint)
      as (Hg & entries4 & Hd4 & Harea).
    injection Hg as <-.
    pose proof (peak_integration_run_same_rows _ _ _ _ _ _ _ Hint) as Hsame4.
    split; [reflexivity|]. split; [exact Hsame4|].
    intros k f Hf.
    assert (Hd5 : nth_error (dicts h4) (length (dicts h1)) = Some entries4).
    { destruct Hsame4 as (_ & -> & _). exact Hd4. }
    destruct (Harea k (table_of_key _ _ _ _ _ Hf Hd5)) as (f' & Hf' & Ha).
    rewrite Hf in Hf'. injection Hf' as <-. exact Ha.
Qed.

Lemma stages_allocate_or_update_in_place_witness :
  (0%nat = length (chromas empty_heap) /\
   (exists t, chromas spike_heap = chromas empty_heap ++ [t] /\ channel t = spike) /\
   frames spike_heap = frames empty_heap /\ dicts spike_heap = dicts empty_heap) /\
  (0%nat = length (dicts spike_heap) /\
   chromas spike_found = chromas spike_heap /\
   (exists fs, frames spike_found = frames spike_heap ++ fs) /\
   (exists entries, dicts spike_found = dicts spike_heap ++ [entries])) /\
  (0%nat = 0%nat /\ same_rows spike_found spike_limited /\
   forall k f, table_of spike_limited 0 k = Some f -> has_limits f) /\
  (forall simpson d'' h4,
     peak_integration simpson (Some 0%nat) 0 0 spike_limited = (Ok d'', h4) ->
     d'' = 0%nat /\ same_rows spike_limited h4 /\
     forall k f, table_of h4 0 k = Some f -> has_area f).
Proof.
  apply (stages_allocate_or_update_in_place spike [(0, 20)] 5
           empty_heap spike_heap spike_found spike_limited 0 0 0).
  - vm_compute. reflexivity.
  - vm_compute. reflexivity.
  - vm_compute. reflexivity.
Defined.

(** ** The quadrature *)

Lemma mask_select_and (points : list Z) (f g : Z -> bool) :
  mask_select points (mask_and (map f points) (map g points))
  = filter (fun v => f v && g v) points.
Proof.
  unfold mask_select, mask_and.
  induction points as [|v points IH]; [reflexivity|].
  cbn [map combine filter fst snd].
  destruct (f v && g v); cbn [map fst]; rewrite IH; reflexivity.
Qed.















(** * Further properties *)

(** ** The derivative stage *)

(** [read_chromatogram] raises on the empty array only, and then a
    [ValueError] (from [np.convolve]). *)
Theorem read_chromatogram_raises_on_empty_only (y : list Z) :
  (read_chromatogram y = Raise ValueError <-> y = []) /\
  (forall e, read_chromatogram y = Raise e -> y = [] /\ e = ValueError).
Proof.
  destruct y as [|x l].
  - split; [split; reflexivity|]. intros e He.
    rewrite read_chromatogram_empty in He. injection He as <-. split; reflexivity.
  - rewrite read_chromatogram_nonempty by discriminate.
    split; [split; discriminate | discriminate].
Qed.

(** The stored 'Second diff' column in terms of the signal, for an integer
    signal whose samples do not exceed [2^51] in absolute value (so that no
    difference is rounded): entry [i] is the second difference
    [signal[i+2] - 2 signal[i+1] + signal[i]] while [i + 2 < n]; the two
    last entries are what the implicit zeros after the signal leave,
    [signal[n-2] - 2 signal[n-1]] and [signal[n-1]]. *)
Theorem second_diff_of_signal (y : list Z) :
  y <> [] -> within (2 ^ 51) y ->
  exists df,
    read_chromatogram y = Ok df /\
    (forall i, (i + 2 < length y)%nat ->
       nth i (second_diff df) 0 = nth (i + 2) y 0 - 2 * nth (i + 1) y 0 + nth i y 0) /\
    ((2 <= length y)%nat ->
       nth (length y - 2) (second_diff df) 0
       = nth (length y - 2) y 0 - 2 * nth (length y - 1) y 0) /\
    nth (length y - 1) (second_diff df) 0 = nth (length y - 1) y 0.
Proof.
  intros Hne Hy. eexists. split; [apply read_chromatogram_nonempty; exact Hne|].
  cbn [second_diff]. rewrite second_derivative_exact by exact Hy.
  pose proof (forward_diff_length y) as Hlen.
  pose proof (forward_diff_last y Hne) as Hlast.
  split; [|split].
  - intros i Hi.
    rewrite forward_diff_nth by lia.
    rewrite !forward_diff_nth by lia.
    replace (i + 2)%nat with (S (S i)) by lia.
    replace (i + 1)%nat with (S i) by lia. lia.
  - intros Hn.
    rewrite forward_diff_nth by lia.
    replace (S (length y - 2)) with (length y - 1)%nat by lia.
    rewrite Hlast. rewrite forward_diff_nth by lia.
    replace (S (length y - 2)) with (length y - 1)%nat by lia. lia.
  - rewrite <- Hlen at 1.
    rewrite forward_diff_last by (apply forward_diff_nonempty; exact Hne).
    rewrite Hlen, Hlast. lia.
Qed.

Lemma second_diff_of_signal_witness :
  exists df,
    read_chromatogram [5; 7; 10] = Ok df /\
    (forall i, (i + 2 < 3)%nat ->
       nth i (second_diff df) 0
       = nth (i + 2) [5; 7; 10] 0 - 2 * nth (i + 1) [5; 7; 10] 0 + nth i [5; 7; 10] 0) /\
    ((2 <= 3)%nat ->
       nth 1 (second_diff df) 0 = nth 1 [5; 7; 10] 0 - 2 * nth 2 [5; 7; 10] 0) /\
    nth 2 (second_diff df) 0 = nth 2 [5; 7; 10] 0.
Proof.
  apply (second_diff_of_signal [5; 7; 10]); [discriminate|].
  repeat constructor; cbn; lia.
Defined.

Lemma forward_diff_injective (l l' : list Z) :
  forward_diff l = forward_diff l' -> l = l'.
Proof.
  revert l'. induction l as [|x l IH]; intros l' Heq.
  - destruct l' as [|x' [|x'' l']]; [reflexivity | discriminate | discriminate].
  - destruct l' as [|x' l'].
    + destruct l; discriminate.
    + destruct l as [|x1 l]; destruct l' as [|x1' l'].
      * cbn in Heq. injection Heq as Heq. f_equal. lia.
      * cbn [forward_diff] in Heq. injection Heq as _ Heq. destruct l'; discriminate.
      * cbn [forward_diff] in Heq. injection Heq as _ Heq. destruct l; discriminate.
      * assert (Htl : x1 :: l = x1' :: l').
        { apply IH. cbn [forward_diff] in Heq |- *. injection Heq as _ Heq. exact Heq. }
        cbn [forward_diff] in Heq. injection Heq as Hhd _.
        injection Htl as -> ->. f_equal. lia.
Qed.

(** Among integer signals whose samples do not exceed [2^52] in absolute
    value, the stored first derivative determines the signal: two such
    signals with the same 'First diff' column are the same signal (the last
    entry, [- signal[n-1]], anchors the differences). *)
Theorem first_diff_determines_signal (y y' : list Z) (df df' : chroma) :
  within (2 ^ 52) y -> within (2 ^ 52) y' ->
  read_chromatogram y = Ok df ->
  read_chromatogram y' = Ok df' ->
  first_diff df = first_diff df' ->
  y = y'.
Proof.
  intros Hw Hw' Hy Hy' Heq.
  assert (Hne : y <> []) by (intros ->; rewrite read_chromatogram_empty in Hy; discriminate).
  assert (Hne' : y' <> []) by (intros ->; rewrite read_chromatogram_empty in Hy'; discriminate).
  rewrite (read_chromatogram_nonempty y Hne) in Hy. injection Hy as <-.
  rewrite (read_chromatogram_nonempty y' Hne') in Hy'. injection Hy' as <-.
  cbn [first_diff] in Heq. rewrite !first_derivative_exact in Heq by assumption.
  apply forward_diff_injective. exact Heq.
Qed.

Lemma first_diff_determines_signal_witness :
  read_chromatogram [5; 7; 10] = Ok (mk_chroma [5; 7; 10] [2; 3; -10] [1; -13; 10]) /\
  [5; 7; 10] = [5; 7; 10].
Proof.
  split; [reflexivity|].
  apply (first_diff_determines_signal [5; 7; 10] [5; 7; 10]
           (mk_chroma [5; 7; 10] [2; 3; -10] [1; -13; 10])
           (mk_chroma [5; 7; 10] [2; 3; -10] [1; -13; 10]));
    try reflexivity; repeat constructor; cbn; lia.
Defined.

(** ** Detection finds exactly the high strict maxima *)

Lemma plateau_end_neq (x : list Z) (i_max : nat) (xi : Z) (i_ahead : nat) :
  sample x i_ahead <> xi -> plateau_end x i_max xi i_ahead = i_ahead.
Proof.
  intros Hne. simp plateau_end.
  destruct (lt_dec i_ahead i_max); cbn; [|reflexivity].
  destruct (Z.eqb_spec (sample x i_ahead) xi); [contradiction | reflexivity].
Qed.

(** The samples the inner loop passes equal the sample it started from. *)
Lemma plateau_end_plateau (x : list Z) (i_max : nat) (xi : Z) (i_ahead k : nat) :
  (i_ahead <= k < plateau_end x i_max xi i_ahead)%nat -> sample x k = xi.
Proof.
  funelim (plateau_end x i_max xi i_ahead); intros Hk; try lia.
  destruct (Nat.eq_dec k i_ahead) as [->|Hne].
  - apply Z.eqb_eq. assumption.
  - apply H. lia.
Qed.

(** The outer loop misses no strict maximum. *)
Lemma lm_loop_complete (x : list Z) (i_max i m : nat) :
  (1 <= i)%nat -> (i <= m < i_max)%nat ->
  sample x (m - 1) < sample x m -> sample x (m + 1) < sample x m ->
  In m (lm_loop x i_max i).
Proof.
  funelim (lm_loop x i_max i); intros Hi Hm Hleft Hright.
  - lia.
  - destruct (Nat.eq_dec m i) as [->|Hne].
    + apply Z.ltb_ge in Heq. lia.
    + apply H; try lia; assumption.
  - destruct (Nat.eq_dec m i) as [->|Hne].
    + left.
      rewrite plateau_end_neq by (replace (S i) with (i + 1)%nat by lia; lia).
      replace (i + (S i - 1))%nat with (2 * i)%nat by lia.
      rewrite Nat.mul_comm. apply Nat.div_mul. lia.
    + right.
      pose proof (plateau_end_ge x i_max (sample x i) (S i)) as Hge.
      apply H; try lia; try assumption.
      destruct (Nat.lt_ge_cases (plateau_end x i_max (sample x i) (S i)) m) as [Hlt|Hle];
        [lia|].
      exfalso. apply Z.ltb_lt in Heq.
      destruct (Nat.eq_dec m (plateau_end x i_max (sample x i) (S i))) as [Hm'|Hm'].
      * assert (Hprev : sample x (m - 1) = sample x i).
        { destruct (Nat.eq_dec (m - 1) i) as [->|Hmi]; [reflexivity|].
          apply (plateau_end_plateau x i_max (sample x i) (S i)). lia. }
        rewrite <- Hm' in Heq. lia.
      * assert (Hcur : sample x m = sample x i).
        { apply (plateau_end_plateau x i_max (sample x i) (S i)). lia. }
        assert (Hprev : sample x (m - 1) = sample x i).
        { destruct (Nat.eq_dec (m - 1) i) as [->|Hmi]; [reflexivity|].
          apply (plateau_end_plateau x i_max (sample x i) (S i)). lia. }
        lia.
  - destruct (Nat.eq_dec m i) as [->|Hne].
    + apply Z.ltb_ge in Heq.
      rewrite plateau_end_neq in Heq by (replace (S i) with (i + 1)%nat by lia; lia).
      replace (S i) with (i + 1)%nat in Heq by lia. lia.
    + apply H; try lia; assumption.
Qed.

(** The outer loop returns its positions in increasing order. *)
Lemma lm_loop_sorted (x : list Z) (i_max i : nat) :
  StronglySorted lt (lm_loop x i_max i).
Proof.
  funelim (lm_loop x i_max i); try assumption.
  - constructor.
  - constructor; [assumption|].
    apply Forall_forall. intros m Hm. apply lm_loop_bounds in Hm.
    pose proof (plateau_end_ge x i_max (sample x i) (S i)) as Hge.
    assert (((i + (plateau_end x i_max (sample x i) (S i) - 1)) / 2
             <= plateau_end x i_max (sample x i) (S i) - 1)%nat).
    { apply Nat.Div0.div_le_upper_bound. lia. }
    lia.
Qed.

Lemma filter_StronglySorted {A : Type} (R : A -> A -> Prop) (f : A -> bool) (l : list A) :
  StronglySorted R l -> StronglySorted R (filter f l).
Proof.
  induction 1 as [|a l Hl IH Hall]; cbn [filter]; [constructor|].
  destruct (f a); [|exact IH].
  constructor; [exact IH|].
  apply Forall_forall. intros b Hb. apply filter_In in Hb.
  rewrite Forall_forall in Hall. apply Hall. tauto.
Qed.

Lemma StronglySorted_weaken {A : Type} (R R' : A -> A -> Prop) (P : A -> Prop) (l : list A) :
  (forall a b, P a -> P b -> R a b -> R' a b) ->
  Forall P l -> StronglySorted R l -> StronglySorted R' l.
Proof.
  intros Himp HP Hs. induction Hs as [|a l Hl IH Hall]; [constructor|].
  inversion HP as [|? ? Pa Pl]; subst.
  constructor; [apply IH; exact Pl|].
  rewrite Forall_forall in *. intros b Hb. apply Himp; auto.
Qed.

Lemma StronglySorted_nth (R : nat -> nat -> Prop) (l : list nat) (j : nat) :
  StronglySorted R l -> (S j < length l)%nat -> R (nth j l 0%nat) (nth (S j) l 0%nat).
Proof.
  intros Hs. revert j. induction Hs as [|a l Hl IH Hall]; intros j Hj; cbn [length] in Hj;
    [lia|].
  destruct j as [|j].
  - destruct l as [|b l]; cbn [length] in Hj; [lia|].
    cbn [nth]. inversion Hall; assumption.
  - change (R (nth j l 0%nat) (nth (S j) l 0%nat)). apply IH. lia.
Qed.

Lemma clear_nothing_earlier (peaks : list nat) (d j : nat) (keep : list bool) :
  StronglySorted (fun a b => a + d <= b)%nat peaks -> (j < length peaks)%nat ->
  flag_earlier peaks d (nth j peaks 0%nat) j keep = keep.
Proof.
  intros Hs Hj. destruct j as [|j]; [reflexivity|].
  cbn [flag_earlier].
  pose proof (StronglySorted_nth _ peaks j Hs Hj) as Hgap. cbn beta in Hgap.
  destruct (Nat.ltb_spec (nth (S j) peaks 0 - nth j peaks 0) d)%nat; [lia | reflexivity].
Qed.

Lemma clear_nothing_later (peaks : list nat) (d j : nat) (keep : list bool) :
  StronglySorted (fun a b => a + d <= b)%nat peaks ->
  flag_later peaks d (nth j peaks 0%nat) (length peaks - S j) (S j) keep = keep.
Proof.
  intros Hs. destruct (length peaks - S j)%nat as [|n] eqn:Hn; [reflexivity|].
  cbn [flag_later].
  pose proof (StronglySorted_nth _ peaks j Hs ltac:(lia)) as Hgap. cbn beta in Hgap.
  destruct (Nat.ltb_spec (nth (S j) peaks 0 - nth j peaks 0) d)%nat; [lia | reflexivity].
Qed.

(** Peaks at least [distance] apart all pass the distance condition,
    whatever their priorities. *)
Lemma select_by_peak_distance_keeps_all (peaks : list nat) (priority : list Z) (d : nat) :
  StronglySorted (fun a b => a + d <= b)%nat peaks ->
  select_by_peak_distance peaks priority d = repeat true (length peaks).
Proof.
  intros Hs. unfold select_by_peak_distance.
  generalize (rev (argsort priority)). intros order.
  induction order as [|j order IH]; [reflexivity|].
  cbn [fold_left].
  destruct (nth j (repeat true (length peaks)) false) eqn:Hj; [|exact IH].
  assert (Hlt : (j < length peaks)%nat).
  { destruct (Nat.lt_ge_cases j (length peaks)) as [H|H]; [exact H|].
    rewrite nth_overflow in Hj by (rewrite repeat_length; exact H). discriminate. }
  rewrite clear_nothing_earlier by assumption.
  rewrite clear_nothing_later by assumption.
  exact IH.
Qed.

Lemma mask_select_all {A : Type} (l : list A) :
  mask_select l (repeat true (length l)) = l.
Proof.
  unfold mask_select. induction l as [|a l IH]; [reflexivity|].
  cbn [length repeat combine filter snd map fst]. rewrite IH. reflexivity.
Qed.

Lemma combine_take (x : list Z) (l : list nat) :
  combine (map Z.of_nat l) (map (sample x) l)
  = map (fun i => (Z.of_nat i, sample x i)) l.
Proof.
  induction l as [|p l IH]; [reflexivity|]. cbn [map combine]. rewrite IH. reflexivity.
Qed.

(** With the parameters of [peak_finder], [find_peaks] is two filters of the
    local maxima of the float64 array: the distance condition removes
    nothing, since positions that stand at least 1 above both neighbours are
    never adjacent. *)
Lemma pre_peak_data_filters (x : list Z) :
  let xf := map to_float64 x in
  let high := fun p => min_height <=? sample xf p in
  let sharp := fun p => min_threshold <=? Z.min (to_float64 (sample xf p - sample xf (p - 1)))
                                              (to_float64 (sample xf p - sample xf (p + 1))) in
  let peaks := filter sharp (filter high (local_maxima_1d xf)) in
  pre_peak_data x = Ok (map (fun i => (Z.of_nat i, sample xf i)) peaks) /\
  StronglySorted (fun a b => a + 2 <= b)%nat peaks.
Proof.
  intros xf high sharp peaks.
  assert (Hsorted : StronglySorted (fun a b => a + 2 <= b)%nat peaks).
  { apply (StronglySorted_weaken lt _ (fun p => sharp p = true)).
    - intros a b Ha Hb Hab. unfold sharp, min_threshold in Ha, Hb.
      apply Z.leb_le in Ha. apply Z.leb_le in Hb.
      destruct (Nat.eq_dec b (S a)) as [->|Hne]; [|lia].
      replace (S a - 1)%nat with a in Hb by lia.
      replace (a + 1)%nat with (S a) in Ha by lia.
      apply Z.min_glb_iff in Ha. apply Z.min_glb_iff in Hb.
      destruct Ha as [_ Ha]. destruct Hb as [Hb _].
      apply -> to_float64_ge_small in Ha; [|split; [lia | vm_compute; discriminate]].
      apply -> to_float64_ge_small in Hb; [|split; [lia | vm_compute; discriminate]].
      lia.
    - apply Forall_forall. intros p Hp. apply filter_In in Hp. tauto.
    - apply filter_StronglySorted, filter_StronglySorted, lm_loop_sorted. }
  split; [|exact Hsorted].
  unfold pre_peak_data, find_peaks, min_distance.
  change (2 <? 1) with false. change (Z.to_nat 2) with 2%nat. cbv beta iota zeta.
  fold xf.
  unfold select_by_property, take. rewrite map_map, mask_select_map. fold high.
  unfold select_by_peak_threshold. rewrite mask_select_map. fold sharp. fold peaks.
  rewrite select_by_peak_distance_keeps_all by exact Hsorted.
  rewrite mask_select_all. cbn [bind fst snd]. f_equal. apply combine_take.
Qed.

(** Detection is exact on an integer signal: the rows of the table of peaks
    are the positions inside the signal whose sample, as float64, is at
    least [min_height] and strictly above both neighbouring samples as
    float64, each with that float64 sample as height; no such position is
    left out.  When no sample exceeds [2^53] in absolute value the float64
    samples are the samples themselves. *)
Theorem detection_finds_exactly_the_high_strict_maxima (x : list Z) :
  exists pre,
    pre_peak_data x = Ok pre /\
    (forall pk,
       In pk pre <->
       exists i,
         pk = (Z.of_nat i, to_float64 (sample x i)) /\
         (1 <= i)%nat /\ (i + 1 < length x)%nat /\
         min_height <= to_float64 (sample x i) /\
         to_float64 (sample x (i - 1)) < to_float64 (sample x i) /\
         to_float64 (sample x (i + 1)) < to_float64 (sample x i)) /\
    (within (2 ^ 53) x ->
     forall pk,
       In pk pre <->
       exists i,
         pk = (Z.of_nat i, sample x i) /\
         (1 <= i)%nat /\ (i + 1 < length x)%nat /\
         min_height <= sample x i /\
         sample x (i - 1) < sample x i /\
         sample x (i + 1) < sample x i).
Proof.
  destruct (pre_peak_data_filters x) as [Hpre _]. cbv zeta in Hpre.
  eexists. split; [exact Hpre|].
  assert (Hgen : forall pk,
    In pk (map (fun i => (Z.of_nat i, sample (map to_float64 x) i))
             (filter
                (fun p => min_threshold <=?
                   Z.min (to_float64 (sample (map to_float64 x) p
                                      - sample (map to_float64 x) (p - 1)))
                         (to_float64 (sample (map to_float64 x) p
                                      - sample (map to_float64 x) (p + 1))))
                (filter (fun p => min_height <=? sample (map to_float64 x) p)
                   (local_maxima_1d (map to_float64 x))))) <->
    exists i,
      pk = (Z.of_nat i, to_float64 (sample x i)) /\
      (1 <= i)%nat /\ (i + 1 < length x)%nat /\
      min_height <= to_float64 (sample x i) /\
      to_float64 (sample x (i - 1)) < to_float64 (sample x i) /\
      to_float64 (sample x (i + 1)) < to_float64 (sample x i)).
  { intros pk. split.
    - intros Hin. apply in_map_iff in Hin. destruct Hin as (i & <- & Hi).
      apply filter_In in Hi. destruct Hi as [Hi Hs].
      apply filter_In in Hi. destruct Hi as [Hi Hh].
      apply lm_loop_bounds in Hi. rewrite length_map in Hi.
      apply Z.leb_le in Hs. apply Z.leb_le in Hh.
      apply Z.min_glb_iff in Hs. destruct Hs as [Hl Hr]. unfold min_threshold in Hl, Hr.
      apply -> to_float64_ge_small in Hl; [|split; [lia | vm_compute; discriminate]].
      apply -> to_float64_ge_small in Hr; [|split; [lia | vm_compute; discriminate]].
      rewrite !sample_to_float64 in *.
      exists i. repeat split; try assumption; lia.
    - intros (i & -> & H1 & H2 & H3 & H4 & H5).
      apply in_map_iff. exists i. split; [rewrite sample_to_float64; reflexivity|].
      rewrite <- (sample_to_float64 x i) in H3, H4, H5.
      rewrite <- (sample_to_float64 x (i - 1)) in H4.
      rewrite <- (sample_to_float64 x (i + 1)) in H5.
      apply filter_In. split; [apply filter_In; split|].
      + unfold local_maxima_1d. rewrite length_map.
        apply lm_loop_complete; try lia; assumption.
      + apply Z.leb_le. exact H3.
      + apply Z.leb_le. unfold min_threshold. apply Z.min_glb_iff.
        split; (apply to_float64_ge_small; [split; [lia | vm_compute; discriminate] | lia]). }
  split; [exact Hgen|].
  intros Hx pk.
  assert (Hs : forall i, to_float64 (sample x i) = sample x i).
  { intros i. apply to_float64_small. apply within_nth; [|exact Hx].
    vm_compute. discriminate. }
  rewrite Hgen. split; intros (i & Hi); exists i; rewrite !Hs in *; exact Hi.
Qed.

Lemma detection_finds_exactly_the_high_strict_maxima_witness :
  exists pre,
    pre_peak_data spike = Ok pre /\
    forall pk,
      In pk pre <->
      exists i,
        pk = (Z.of_nat i, sample spike i) /\
        (1 <= i)%nat /\ (i + 1 < length spike)%nat /\
        min_height <= sample spike i /\
        sample spike (i - 1) < sample spike i /\
        sample spike (i + 1) < sample spike i.
Proof.
  destruct (detection_finds_exactly_the_high_strict_maxima spike)
    as (pre & Hpre & _ & Hexact).
  exists pre. split; [exact Hpre|].
  apply Hexact. repeat constructor; cbn; lia.
Defined.

(** The rows of the table of peaks come in increasing order of position, and
    any two of them are at least 2 positions apart: no position is listed
    twice. *)
Theorem detected_peaks_are_ordered_and_apart (x : list Z) :
  exists pre,
    pre_peak_data x = Ok pre /\
    StronglySorted (fun a b => index a + 2 <= index b) pre.
Proof.
  destruct (pre_peak_data_filters x) as [Hpre Hsorted]. cbv zeta in Hpre, Hsorted.
  eexists. split; [exact Hpre|]. clear Hpre.
  induction Hsorted as [|a l Hl IH Hall]; [constructor|].
  cbn [map]. constructor; [exact IH|].
  apply Forall_forall. intros pk Hpk. apply in_map_iff in Hpk.
  destruct Hpk as (b & <- & Hb). rewrite Forall_forall in Hall.
  specialize (Hall b Hb). cbn [index fst]. lia.
Qed.

(** A signal that never falls, or never rises, has no peak: a ramp or a flat
    trace gives an empty table, not an error. *)
Theorem monotone_signal_has_no_peak (x : list Z) :
  (forall i, (i + 1 < length x)%nat -> sample x i <= sample x (i + 1)) \/
  (forall i, (i + 1 < length x)%nat -> sample x (i + 1) <= sample x i) ->
  pre_peak_data x = Ok [].
Proof.
  intros Hmono. destruct (pre_peak_data_total x) as [pre Hpre].
  destruct pre as [|pk pre]; [exact Hpre|]. exfalso.
  destruct (pre_peak_data_sound x _ pk Hpre (or_introl eq_refl))
    as (i & _ & _ & H1 & H2 & _ & H4 & H5).
  destruct Hmono as [Hup | Hdown].
  - specialize (Hup i H2). lia.
  - specialize (Hdown (i - 1)%nat ltac:(lia)).
    replace (i - 1 + 1)%nat with i in Hdown by lia. lia.
Qed.

Lemma monotone_signal_has_no_peak_witness :
  pre_peak_data [1000; 3000; 5000; 7000] = Ok [].
Proof.
  apply (monotone_signal_has_no_peak [1000; 3000; 5000; 7000]).
  left. intros i Hi.
  destruct i as [|[|[|i]]]; cbn in *; lia.
Defined.

(** ** The limits of a peak *)

(** Resolved limits bracket the peak: the left limit lies at least
    [width + 1] positions before it, the right limit at least [width]
    positions after it, both inside the signal; each limit value is the
    signal at the limit index, and the slope there is below [min_slope]. *)
Theorem resolved_limits_bracket_peak (y dy : list Z) (min_slope p l r : Z)
    (lv rv : limit) :
  len y = len dy -> 0 <= p < len dy ->
  peak_limits y dy min_slope p = Ok ((Num l, Num r), (lv, rv)) ->
  0 <= l < p - width /\ p + width <= r < len dy /\
  lv = Num (nth (Z.to_nat l) y 0) /\ rv = Num (nth (Z.to_nat r) y 0) /\
  Z.abs (nth (Z.to_nat l) dy 0) < min_slope /\
  Z.abs (nth (Z.to_nat r) dy 0) < min_slope.
Proof.
  intros Hlen Hp Hrun.
  destruct (peak_limits_spec y dy min_slope p Hlen Hp) as (li & lv' & Hrun' & Hright & Hleft).
  rewrite Hrun in Hrun'. injection Hrun' as <- <-. cbn [fst snd] in Hright, Hleft.
  destruct Hright as [(Hr & _) | (jr & Hr & Hrv & Hrange & Hslope & _)]; [discriminate|].
  destruct Hleft as [(Hl & _) | (jl & Hl & Hlv & Hrange' & Hslope' & _)]; [discriminate|].
  injection Hr as ->. injection Hl as ->. repeat split; try assumption; lia.
Qed.

Lemma resolved_limits_bracket_peak_witness :
  0 <= 5 < 11 - width /\ 11 + width <= 16 < len (map Z.abs (forward_diff spike)) /\
  Num 10 = Num (nth (Z.to_nat 5) spike 0) /\ Num 10 = Num (nth (Z.to_nat 16) spike 0) /\
  Z.abs (nth (Z.to_nat 5) (map Z.abs (forward_diff spike)) 0) < 5 /\
  Z.abs (nth (Z.to_nat 16) (map Z.abs (forward_diff spike)) 0) < 5.
Proof.
  apply (resolved_limits_bracket_peak spike (map Z.abs (forward_diff spike)) 5 11 5 16
           (Num 10) (Num 10)).
  - reflexivity.
  - vm_compute. split; [discriminate | reflexivity].
  - vm_compute. reflexivity.
Defined.

(** The limits of a peak inside the signal are always computed, and a side
    has its index and its value unresolved together.  A peak no further than
    [width] from the start has no left limit, a peak within [width] of the
    end has no right limit, and with [min_slope <= 0] no limit is ever
    found. *)
Theorem limits_unresolved_at_the_ends (y dy : list Z) (min_slope p : Z) :
  len y = len dy -> 0 <= p < len dy ->
  exists li lv,
    peak_limits y dy min_slope p = Ok (li, lv) /\
    (fst li = NoneStr <-> fst lv = NoneStr) /\
    (snd li = NoneStr <-> snd lv = NoneStr) /\
    (p <= width -> fst li = NoneStr) /\
    (len dy <= p + width -> snd li = NoneStr) /\
    (min_slope <= 0 -> li = (NoneStr, NoneStr)).
Proof.
  intros Hlen Hp.
  destruct (peak_limits_spec y dy min_slope p Hlen Hp) as (li & lv & Hrun & Hright & Hleft).
  exists li, lv. split; [exact Hrun|].
  destruct li as [ll lr], lv as [vl vr]. cbn [fst snd] in *.
  assert (Hl : (ll = NoneStr <-> vl = NoneStr) /\ (p <= width -> ll = NoneStr) /\
               (min_slope <= 0 -> ll = NoneStr)).
  { destruct Hleft as [(-> & -> & _) | (j & -> & -> & Hrange & Hslope & _)].
    - repeat split; reflexivity.
    - split; [split; discriminate|]. split; intros; lia. }
  assert (Hr : (lr = NoneStr <-> vr = NoneStr) /\ (len dy <= p + width -> lr = NoneStr) /\
               (min_slope <= 0 -> lr = NoneStr)).
  { destruct Hright as [(-> & -> & _) | (j & -> & -> & Hrange & Hslope & _)].
    - repeat split; reflexivity.
    - split; [split; discriminate|]. split; intros; lia. }
  destruct Hl as (Hl1 & Hl2 & Hl3), Hr as (Hr1 & Hr2 & Hr3).
  repeat split; try tauto.
  intros Hms. rewrite (Hl3 Hms), (Hr3 Hms). reflexivity.
Qed.

Lemma limits_unresolved_at_the_ends_witness :
  exists li lv,
    peak_limits edge_spike (map Z.abs (forward_diff edge_spike)) 5 3 = Ok (li, lv) /\
    (fst li = NoneStr <-> fst lv = NoneStr) /\
    (snd li = NoneStr <-> snd lv = NoneStr) /\
    (3 <= width -> fst li = NoneStr) /\
    (len (map Z.abs (forward_diff edge_spike)) <= 3 + width -> snd li = NoneStr) /\
    (5 <= 0 -> li = (NoneStr, NoneStr)).
Proof.
  apply (limits_unresolved_at_the_ends edge_spike (map Z.abs (forward_diff edge_spike)) 5 3).
  - reflexivity.
  - vm_compute. split; [discriminate | reflexivity].
Defined.

(** Raising [min_slope] never moves a limit away from the peak: a side that
    is resolved stays resolved, the right limit does not move right and the
    left limit does not move left. *)
Theorem larger_min_slope_tightens_limits (y dy : list Z) (min_slope min_slope' p : Z)
    (li lv li' lv' : limit * limit) :
  len y = len dy -> 0 <= p < len dy ->
  min_slope <= min_slope' ->
  peak_limits y dy min_slope p = Ok (li, lv) ->
  peak_limits y dy min_slope' p = Ok (li', lv') ->
  (forall r, snd li = Num r -> exists r', snd li' = Num r' /\ p + width <= r' <= r) /\
  (forall l, fst li = Num l -> exists l', fst li' = Num l' /\ l <= l' < p - width).
Proof.
  intros Hlen Hp Hms Hrun Hrun'.
  destruct (peak_limits_spec y dy min_slope p Hlen Hp) as (a & b & Ha & Hright & Hleft).
  rewrite Hrun in Ha. injection Ha as <- <-.
  destruct (peak_limits_spec y dy min_slope' p Hlen Hp) as (a & b & Ha & Hright' & Hleft').
  rewrite Hrun' in Ha. injection Ha as <- <-.
  split.
  - intros r Hr.
    destruct Hright as [(Hnone & _) | (j & Hj & _ & Hrange & Hslope & _)]; [congruence|].
    rewrite Hr in Hj. injection Hj as <-.
    destruct Hright' as [(_ & _ & Hall) | (j' & Hj' & _ & Hrange' & _ & Hfirst)].
    + specialize (Hall r Hrange). lia.
    + exists j'. split; [exact Hj'|].
      destruct (Z_lt_le_dec r j') as [Hlt|Hle]; [|lia].
      specialize (Hfirst r Hrange Hlt). lia.
  - intros l Hl.
    destruct Hleft as [(Hnone & _) | (j & Hj & _ & Hrange & Hslope & _)]; [congruence|].
    rewrite Hl in Hj. injection Hj as <-.
    destruct Hleft' as [(_ & _ & Hall) | (j' & Hj' & _ & Hrange' & _ & Hfirst)].
    + specialize (Hall l Hrange). lia.
    + exists j'. split; [exact Hj'|].
      destruct (Z_lt_le_dec j' l) as [Hlt|Hle]; [|lia].
      specialize (Hfirst l Hrange Hlt). lia.
Qed.

Lemma larger_min_slope_tightens_limits_witness :
  (forall r, snd (Num 5, Num 21) = Num r ->
     exists r', snd (Num 5, Num 19) = Num r' /\ 11 + width <= r' <= r) /\
  (forall l, fst (Num 5, Num 21) = Num l ->
     exists l', fst (Num 5, Num 19) = Num l' /\ l <= l' < 11 - width).
Proof.
  apply (larger_min_slope_tightens_limits tailing_peak
           (map Z.abs (forward_diff tailing_peak)) 2 10 11
           (Num 5, Num 21) (Num 10, Num 12) (Num 5, Num 19) (Num 10, Num 20)).
  - reflexivity.
  - vm_compute. split; [discriminate | reflexivity].
  - lia.
  - vm_compute. reflexivity.
  - vm_compute. reflexivity.
Defined.

(** ** The limits columns *)

(** The loop over the peaks leaves one pair of limits per peak, in the order
    of the peaks. *)
Lemma frame_limits_rows (y dy : list Z) (min_slope : Z) (peak_idx : list Z)
    (lims : list (limit * limit) * list (limit * limit)) :
  frame_limits y dy min_slope peak_idx = Ok lims ->
  length (fst lims) = length peak_idx /\ length (snd lims) = length peak_idx /\
  forall i p, nth_error peak_idx i = Some p ->
    exists lim, peak_limits y dy min_slope p = Ok lim /\
                nth_error (fst lims) i = Some (fst lim) /\
                nth_error (snd lims) i = Some (snd lim).
Proof.
  revert lims. induction peak_idx as [|p rest IH]; intros lims Hrun.
  - cbn in Hrun. injection Hrun as <-. repeat split.
    intros i q Hq. destruct i; discriminate.
  - cbn [frame_limits] in Hrun.
    destruct (peak_limits y dy min_slope p) as [lim|e] eqn:Hp; [|discriminate].
    cbn [bind] in Hrun.
    destruct (frame_limits y dy min_slope rest) as [lims'|e] eqn:Hrest; [|discriminate].
    cbn [bind] in Hrun. injection Hrun as <-.
    destruct (IH lims' eq_refl) as (Hl1 & Hl2 & Hnth). cbn [fst snd length].
    split; [lia|]. split; [lia|].
    intros i q Hq. destruct i as [|i].
    + cbn in Hq. injection Hq as <-. exists lim. repeat split. exact Hp.
    + cbn [nth_error] in *. apply Hnth. exact Hq.
Qed.

(** When [limits_finder] returns, the limits columns of every table of the
    dictionary are well formed: one entry per row in each column, and the
    entry of a row is the pair of limits of that row's own peak, computed on
    the chromatogram passed in. *)
Theorem limits_columns_follow_the_rows (chroma_data peaks_data : nat) (min_slope : Z)
    (h h' : heap) (d : nat) :
  limits_finder chroma_data peaks_data min_slope h = (Ok d, h') ->
  exists c,
    nth_error (chromas h) chroma_data = Some c /\
    forall k f, table_of h' peaks_data k = Some f ->
      exists limits_idx limits_val area,
        pk_extra f = with_limits limits_idx limits_val area /\
        length limits_idx = length (pk_rows f) /\
        length limits_val = length (pk_rows f) /\
        forall i pk, nth_error (pk_rows f) i = Some pk ->
          exists lim,
            peak_limits (channel c) (map Z.abs (first_diff c)) min_slope (index pk)
            = Ok lim /\
            nth_error limits_idx i = Some (fst lim) /\
            nth_error limits_val i = Some (snd lim).
Proof.
  intros Hrun.
  destruct (limits_finder_in_place _ _ _ _ _ _ Hrun) as (_ & c & entries & Hc & Hd & Hall).
  pose proof (limits_finder_run_same_rows _ _ _ _ _ _ Hrun) as (_ & Hdicts & _).
  exists c. split; [exact Hc|].
  intros k f Hf.
  assert (Hd' : nth_error (dicts h') peaks_data = Some entries) by (rewrite Hdicts; exact Hd).
  destruct (Hall k (table_of_key _ _ _ _ _ Hf Hd')) as (f' & Hf' & lims & area & Hlims & Hx).
  rewrite Hf in Hf'. injection Hf' as <-.
  destruct (frame_limits_rows _ _ _ _ _ Hlims) as (Hl1 & Hl2 & Hnth).
  rewrite length_map in Hl1, Hl2.
  exists (fst lims), (snd lims), area. repeat split; try assumption.
  intros i pk Hpk. apply (Hnth i (index pk)).
  rewrite nth_error_map, Hpk. reflexivity.
Qed.

Lemma limits_columns_follow_the_rows_witness :
  exists c,
    nth_error (chromas spike_found) 0 = Some c /\
    forall k f, table_of spike_limited 0 k = Some f ->
      exists limits_idx limits_val area,
        pk_extra f = with_limits limits_idx limits_val area /\
        length limits_idx = length (pk_rows f) /\
        length limits_val = length (pk_rows f) /\
        forall i pk, nth_error (pk_rows f) i = Some pk ->
          exists lim,
            peak_limits (channel c) (map Z.abs (first_diff c)) 5 (index pk) = Ok lim /\
            nth_error limits_idx i = Some (fst lim) /\
            nth_error limits_val i = Some (snd lim).
Proof.
  apply (limits_columns_follow_the_rows 0 0 5 spike_found spike_limited 0).
  vm_compute. reflexivity.
Defined.

(** ** The sample selection and the areas *)

(** The samples integrated for limits [l] and [r] are the samples of the
    whole signal, in signal order, whose intensity lies strictly between [l]
    and [r]; when a side is the string ["None"], the selection raises
    [TypeError]. *)
Theorem selection_is_by_value (points : list Z) :
  (forall l r,
     select_samples points (Num l, Num r)
     = Ok (filter (fun v => (l <? v) && (v <? r)) points)) /\
  (forall lim, fst lim = NoneStr \/ snd lim = NoneStr ->
     select_samples points lim = Raise TypeError).
Proof.
  split.
  - intros l r. unfold select_samples, greater, less. cbn [fst snd bind].
    rewrite (mask_select_and points (fun v => l <? v) (fun v => v <? r)). reflexivity.
  - intros [[|l] [|r]] [H|H]; cbn [fst snd] in H; try discriminate; reflexivity.
Qed.

(** The loop over the limits of a table returns only when every selection
    and every call of the quadrature routine returned: then all limits are
    numbers, and the area at a position is the routine's result on the
    selection for the limits at that position. *)
Lemma frame_areas_rows (simpson : list Z -> outcome float) (points : list Z)
    (limits_list : list (limit * limit)) (areas : list float) :
  frame_areas simpson points limits_list = Ok areas ->
  length areas = length limits_list /\
  forall i lim, nth_error limits_list i = Some lim ->
    exists l r sel a,
      lim = (Num l, Num r) /\ select_samples points lim = Ok sel /\
      simpson sel = Ok a /\ nth_error areas i = Some a.
Proof.
  revert areas. induction limits_list as [|lim rest IH]; intros areas Hrun.
  - cbn in Hrun. injection Hrun as <-. split; [reflexivity|].
    intros i lim Hlim. destruct i; discriminate.
  - cbn [frame_areas] in Hrun.
    destruct (select_samples points lim) as [sel|e] eqn:Hsel; [|discriminate].
    cbn [bind] in Hrun.
    destruct (simpson sel) as [a|e] eqn:Ha; [|discriminate].
    cbn [bind] in Hrun.
    destruct (frame_areas simpson points rest) as [areas'|e] eqn:Hrest; [|discriminate].
    cbn [bind] in Hrun. injection Hrun as <-.
    destruct (IH areas' eq_refl) as [Hlen Hnth]. cbn [length].
    split; [lia|].
    intros i lim' Hlim'. destruct i as [|i].
    + cbn in Hlim'. injection Hlim' as <-.
      destruct lim as [[|l] [|r]]; try discriminate.
      exists l, r, sel, a. repeat split; assumption.
    + cbn [nth_error] in *. apply Hnth. exact Hlim'.
Qed.

Lemma table_of_map {B : Type} (proj : peaks_frame -> B) (h h' : heap) (d : nat)
    (k : interval) :
  dicts h' = dicts h -> map proj (frames h') = map proj (frames h) ->
  option_map proj (table_of h' d k) = option_map proj (table_of h d k).
Proof.
  intros Hd Hf. unfold table_of. rewrite Hd.
  destruct (nth_error (dicts h) d) as [entries|]; [|reflexivity].
  destruct (dict_get entries k) as [r|]; [|reflexivity].
  rewrite <- !nth_error_map, Hf. reflexivity.
Qed.

(** [peak_integration] never changes a limits column, whether it returns or
    raises. *)
Lemma peak_integration_keeps_limits simpson g chroma_data arg h r h' :
  peak_integration simpson g chroma_data arg h = (r, h') ->
  map limits_columns (frames h') = map limits_columns (frames h).
Proof.
  intros Hrun.
  assert (Hinv : map limits_columns (frames (snd (peak_integration simpson g chroma_data arg h)))
                 = map limits_columns (frames h)); [|rewrite Hrun in Hinv; exact Hinv].
  clear Hrun. unfold peak_integration.
  destruct (get_chroma chroma_data h) as [[c|e] h1] eqn:Hc.
  2:{ rewrite (run_bind_raise _ _ _ _ _ Hc). unfold get_chroma, deref in Hc.
      destruct (nth_error (chromas h) chroma_data); inversion Hc. reflexivity. }
  assert (h1 = h) as ->.
  { unfold get_chroma, deref in Hc.
    destruct (nth_error (chromas h) chroma_data); inversion Hc; reflexivity. }
  rewrite (run_bind_ok _ _ _ _ _ Hc).
  destruct g as [d|]; [|reflexivity].
  erewrite run_bind_ok by reflexivity.
  destruct (nth_error (dicts h) d) as [entries|] eqn:Hd.
  2:{ unfold pbind, get_dict. rewrite Hd. reflexivity. }
  rewrite (run_bind_ok _ _ _ _ _ (get_dict_ok _ _ _ Hd)).
  assert (Hloop : map limits_columns
            (frames (snd (for_each (keys entries)
                            (integration_body simpson (channel c) d) h)))
          = map limits_columns (frames h)).
  { apply (for_each_invariant
             (fun h2 => map limits_columns (frames h2) = map limits_columns (frames h)));
      [|reflexivity].
    intros key h3 _ Hh3.
    destruct (integration_body _ _ _ key h3) as [res h4] eqn:Hb; cbn [snd].
    apply integration_body_run in Hb.
    destruct Hb as [[-> _] | (en & r' & f & li & lv & a & ar & _ & _ & Hf & Hx & _ & _ & ->)];
      [exact Hh3|].
    cbn [frames]. rewrite map_update, <- Hh3. apply update_same.
    rewrite nth_error_map, Hf. unfold limits_columns. cbn [pk_extra option_map].
    rewrite Hx. reflexivity. }
  unfold pbind.
  destruct (for_each (keys entries) _ h) as [[[]|e] h2]; cbn [snd] in *; exact Hloop.
Qed.

(** When [peak_integration] returns, every table of the dictionary carries
    the areas of its limits. *)
Lemma peak_integration_areas simpson (g : option nat) (chroma_data arg : nat)
    (h : heap) (d : nat) (h' : heap) :
  peak_integration simpson g chroma_data arg h = (Ok d, h') ->
  g = Some d /\
  exists c entries,
    nth_error (chromas h) chroma_data = Some c /\
    nth_error (dicts h) d = Some entries /\
    forall k, In k (keys entries) ->
      exists f limits_idx limits_val areas,
        table_of h' d k = Some f /\
        pk_extra f = with_limits limits_idx limits_val (Some areas) /\
        frame_areas simpson (channel c) limits_idx = Ok areas.
Proof.
  unfold peak_integration. intros Hrun.
  apply pbind_run in Hrun. destruct Hrun as [(c & h1 & Hc & Hrun) | (e & _ & He)];
    [|discriminate].
  assert (h1 = h /\ nth_error (chromas h) chroma_data = Some c) as [-> Hc'].
  { unfold get_chroma, deref in Hc.
    destruct (nth_error (chromas h) chroma_data); inversion Hc; auto. }
  destruct g as [g|]; [|discriminate].
  erewrite run_bind_ok in Hrun by reflexivity.
  apply pbind_run in Hrun.
  destruct Hrun as [(entries & h1 & Hd & Hrun) | (e & _ & He)]; [|discriminate].
  assert (h1 = h /\ nth_error (dicts h) g = Some entries) as [-> Hd'].
  { unfold get_dict, deref in Hd.
    destruct (nth_error (dicts h) g); inversion Hd; auto. }
  apply pbind_run in Hrun.
  destruct Hrun as [([] & h2 & Hloop & Hret) | (e & _ & He)]; [|discriminate].
  injection Hret as <- <-. split; [reflexivity|].
  exists c, entries. split; [exact Hc'|]. split; [exact Hd'|].
  set (I := fun h2 : heap => dicts h2 = dicts h).
  set (P := fun (k : interval) (h2 : heap) =>
         exists f li lv areas,
           table_of h2 g k = Some f /\
           pk_extra f = with_limits li lv (Some areas) /\
           frame_areas simpson (channel c) li = Ok areas).
  refine (proj1 (proj2 (for_each_ok I P _ _ _ h h2 eq_refl Hloop))).
  intros key h3 h4 _ Hh3 Hb. apply integration_body_run in Hb.
  destruct Hb as [[_ [e He]]
                 | (en & r & f & li & lv & a & ar & Hen & Hk & Hf & _ & Har & _ & ->)];
    [discriminate|].
  split; [exact Hh3|]. split.
  - exists (mk_peaks (pk_rows f) (with_limits li lv (Some ar))), li, lv, ar.
    split; [|split; [reflexivity | exact Har]].
    unfold table_of. cbn [dicts frames]. rewrite Hen, Hk.
    apply nth_error_update_same. apply nth_error_Some. congruence.
  - intros b (fb & lib & lvb & arb & Hb & Hxb & Harb). unfold P, table_of in *.
    cbn [dicts frames].
    destruct (nth_error (dicts h3) g) as [en'|]; [|discriminate].
    destruct (dict_get en' b) as [rb|]; [|discriminate].
    destruct (Nat.eq_dec r rb) as [<-|Hne].
    + exists (mk_peaks (pk_rows f) (with_limits li lv (Some ar))), li, lv, ar.
      split; [|split; [reflexivity | exact Har]].
      apply nth_error_update_same. apply nth_error_Some. congruence.
    + exists fb, lib, lvb, arb. split; [|split; assumption].
      rewrite nth_error_update_other by exact Hne. exact Hb.
Qed.

(** ** What a run of the script implies *)

(** The tables of a run of the script that returns: under each interval, the
    detected peaks strictly inside it, the limits of these peaks, and the
    areas for these limits. *)
Lemma script_return_tables (simpson : list Z -> outcome float) (y : list Z)
    (intervals : list interval) (h : heap) (d : nat) (h' : heap) :
  script simpson y intervals h = (Ok d, h') ->
  y <> [] /\
  exists pre,
    pre_peak_data y = Ok pre /\
    forall k, In k intervals ->
      exists f lims areas,
        table_of h' d k = Some f /\
        pk_rows f = filter (in_interval k) pre /\
        frame_limits y (map Z.abs (first_derivative y)) 5 (map index (pk_rows f)) = Ok lims /\
        pk_extra f = with_limits (fst lims) (snd lims) (Some areas) /\
        frame_areas simpson y (fst lims) = Ok areas.
Proof.
  intros Hrun.
  assert (Hne : y <> []).
  { intros ->. unfold script, read_chromatogram_stage, pbind, lift in Hrun.
    rewrite read_chromatogram_empty in Hrun. discriminate. }
  split; [exact Hne|].
  destruct (before_integration_returns y intervals 5 h Hne)
    as (pre & h3 & Hpre & Hrun3 & Hc3 & (entries & Hd3 & Hkeys) & Htab).
  exists pre. split; [exact Hpre|].
  intros k Hk.
  rewrite (script_run simpson y intervals h _ _ Hne Hrun3) in Hrun.
  destruct (peak_integration_areas simpson _ _ _ _ _ _ Hrun)
    as (Hg & c & entries' & Hc & Hd & Hareas).
  injection Hg as <-.
  rewrite Hc3 in Hc. injection Hc as <-. rewrite Hd3 in Hd. injection Hd as <-.
  destruct (Hareas k (proj2 (Hkeys k) Hk)) as (f & li & lv & ar & Hf & Hx & Har).
  cbn [channel] in Har.
  destruct (Htab k Hk) as (f3 & Hf3 & Hrows3 & lims & a3 & Hlims & Hx3).
  pose proof (peak_integration_run_same_rows _ _ _ _ _ _ _ Hrun) as (_ & Hdi & Hro).
  pose proof (peak_integration_keeps_limits _ _ _ _ _ _ _ Hrun) as Hli.
  pose proof (table_of_map pk_rows h3 h' (length (dicts h)) k Hdi Hro) as Hrows.
  pose proof (table_of_map limits_columns h3 h' (length (dicts h)) k Hdi Hli) as Hcols.
  rewrite Hf, Hf3 in Hrows, Hcols. cbn [option_map] in Hrows, Hcols.
  injection Hrows as Hrows. injection Hcols as Hcols.
  unfold limits_columns in Hcols. rewrite Hx, Hx3 in Hcols. injection Hcols as -> ->.
  exists f, lims, ar. rewrite Hrows.
  repeat split; try assumption.
Qed.

(** When the script returns, every peak of every interval had both limits
    resolved: under each interval the table holds the detected peaks
    strictly inside it, with one pair of numeric limits and one area per
    row, the area being the quadrature routine's result on the selection
    for that row's limits. *)
Theorem script_returns_only_with_all_limits_resolved (y : list Z)
    (intervals : list interval) (h : heap) :
  y <> [] ->
  exists pre,
    pre_peak_data y = Ok pre /\
    forall simpson d h',
      script simpson y intervals h = (Ok d, h') ->
      forall k, In k intervals ->
        exists f limits_idx limits_val areas,
          table_of h' d k = Some f /\
          pk_rows f = filter (in_interval k) pre /\
          pk_extra f = with_limits limits_idx limits_val (Some areas) /\
          length limits_idx = length (pk_rows f) /\
          length areas = length (pk_rows f) /\
          forall i lim, nth_error limits_idx i = Some lim ->
            exists l r sel a,
              lim = (Num l, Num r) /\ select_samples y lim = Ok sel /\
              simpson sel = Ok a /\ nth_error areas i = Some a.
Proof.
  intros Hne. destruct (pre_peak_data_total y) as [pre Hpre].
  exists pre. split; [exact Hpre|].
  intros simpson d h' Hrun k Hk.
  destruct (script_return_tables simpson y intervals h d h' Hrun)
    as (_ & pre' & Hpre' & Htab).
  rewrite Hpre in Hpre'. injection Hpre' as <-.
  destruct (Htab k Hk) as (f & lims & ar & Hf & Hrows & Hlims & Hx & Har).
  destruct (frame_limits_rows _ _ _ _ _ Hlims) as (Hl1 & _ & _).
  rewrite length_map in Hl1.
  destruct (frame_areas_rows _ _ _ _ Har) as (Hl2 & Hnth).
  exists f, (fst lims), (snd lims), ar.
  split; [exact Hf|]. split; [exact Hrows|]. split; [exact Hx|].
  split; [exact Hl1|]. split; [congruence|]. exact Hnth.
Qed.

Lemma script_returns_only_with_all_limits_resolved_witness :
  exists pre,
    pre_peak_data spike = Ok pre /\
    forall simpson d h',
      script simpson spike [(0, 20)] empty_heap = (Ok d, h') ->
      forall k, In k [(0, 20)] ->
        exists f limits_idx limits_val areas,
          table_of h' d k = Some f /\
          pk_rows f = filter (in_interval k) pre /\
          pk_extra f = with_limits limits_idx limits_val (Some areas) /\
          length limits_idx = length (pk_rows f) /\
          length areas = length (pk_rows f) /\
          forall i lim, nth_error limits_idx i = Some lim ->
            exists l r sel a,
              lim = (Num l, Num r) /\ select_samples spike lim = Ok sel /\
              simpson sel = Ok a /\ nth_error areas i = Some a.
Proof.
  apply (script_returns_only_with_all_limits_resolved spike [(0, 20)] empty_heap).
  discriminate.
Defined.

Lemma frame_limits_In (y dy : list Z) (min_slope : Z) (peak_idx : list Z)
    (lims : list (limit * limit) * list (limit * limit)) (p : Z) :
  frame_limits y dy min_slope peak_idx = Ok lims -> In p peak_idx ->
  exists lim, peak_limits y dy min_slope p = Ok lim /\ In (fst lim) (fst lims).
Proof.
  intros Hrun Hin. apply In_nth_error in Hin. destruct Hin as [i Hi].
  destruct (frame_limits_rows _ _ _ _ _ Hrun) as (_ & _ & Hnth).
  destruct (Hnth i p Hi) as (lim & Hp & Hli & _).
  exists lim. split; [exact Hp|]. apply nth_error_In in Hli. exact Hli.
Qed.

(** A detected peak that lies strictly inside one of the intervals and
    within [width] of the start or of the end of the signal stops the
    script: whatever the quadrature routine, the script raises and returns
    no table. *)
Theorem peak_near_the_ends_stops_the_script (y : list Z) (intervals : list interval)
    (h : heap) (pre : list peak) (pk : peak) (iv : interval) :
  pre_peak_data y = Ok pre ->
  In pk pre -> In iv intervals -> fst iv < index pk < snd iv ->
  index pk <= width \/ len y <= index pk + width ->
  y <> [] /\
  forall simpson, exists e h', script simpson y intervals h = (Raise e, h').
Proof.
  intros Hpre Hpk Hiv Hin Hedge.
  assert (Hne : y <> []).
  { intros ->. rewrite (pre_peak_data_short []) in Hpre by (cbn; lia).
    injection Hpre as <-. contradiction. }
  split; [exact Hne|]. intros simpson.
  destruct (script simpson y intervals h) as [[d|e] h'] eqn:Hrun; [|eauto].
  exfalso.
  destruct (script_return_tables simpson y intervals h d h' Hrun)
    as (_ & pre' & Hpre' & Htab).
  rewrite Hpre in Hpre'. injection Hpre' as <-.
  destruct (Htab iv Hiv) as (f & lims & ar & _ & Hrows & Hlims & _ & Har).
  destruct (pre_peak_data_sound y pre pk Hpre Hpk) as (i & Hi & _ & H1 & H2 & _).
  assert (Hrow : In (index pk) (map index (pk_rows f))).
  { rewrite Hrows. apply in_map. apply filter_In.
    split; [exact Hpk|]. apply in_interval_spec. exact Hin. }
  destruct (frame_limits_In _ _ _ _ _ _ Hlims Hrow) as (lim & Hlim & Hli).
  apply In_nth_error in Hli. destruct Hli as [n Hn].
  destruct (frame_areas_rows _ _ _ _ Har) as (_ & Hnth).
  destruct (Hnth n _ Hn) as (l & r & _ & _ & Hnum & _).
  assert (Hlen : len y = len (map Z.abs (first_derivative y))).
  { rewrite len_map. unfold len. rewrite first_derivative_length. reflexivity. }
  destruct (peak_limits_spec y (map Z.abs (first_derivative y)) 5 (index pk) Hlen)
    as (li' & lv' & Hlim' & Hright & Hleft).
  { rewrite <- Hlen. unfold len. lia. }
  rewrite Hlim in Hlim'. injection Hlim' as Heq. subst lim.
  cbn [fst] in Hnum. subst li'. cbn [fst snd] in Hleft, Hright.
  destruct Hedge as [He|He].
  - destruct Hleft as [(Hl & _) | (j & _ & _ & Hrange & _)]; [discriminate | lia].
  - rewrite Hlen in He.
    destruct Hright as [(Hr & _) | (j & _ & _ & Hrange & _)]; [discriminate | lia].
Qed.

Lemma peak_near_the_ends_stops_the_script_witness :
  edge_spike <> [] /\
  forall simpson, exists e h', script simpson edge_spike [(0, 12)] empty_heap = (Raise e, h').
Proof.
  apply (peak_near_the_ends_stops_the_script edge_spike [(0, 12)] empty_heap
           [(3, 5000)] (3, 5000) (0, 12)).
  - vm_compute. reflexivity.
  - left. reflexivity.
  - left. reflexivity.
  - cbn. lia.
  - left. cbn. unfold width. lia.
Defined.

(** ** Calling the stages out of order *)

(** [peak_integration] needs the limits columns: called on the dictionary
    that [peak_finder] returned for at least one interval, before
    [limits_finder] has run, it raises [IndexError] at the first table and
    changes nothing; and when the module-level name [peaks_data] is not
    bound it raises [NameError], whatever dictionary it is passed. *)
Theorem integration_before_limits_raises (h : heap) (data : nat)
    (intervals : list interval) (c : chroma) :
  nth_error (chromas h) data = Some c -> intervals <> [] ->
  exists d h',
    peak_finder data intervals h = (Ok d, h') /\
    forall simpson arg,
      peak_integration simpson (Some d) data arg h' = (Raise IndexError, h') /\
      peak_integration simpson None data d h' = (Raise NameError, h').
Proof.
  intros Hc Hne. destruct (pre_peak_data_total (channel c)) as [pre Hpre].
  destruct (peak_finder_spec h data intervals c pre Hc Hpre)
    as (fs & entries & Hrun & Hkeys & Htab).
  do 2 eexists. split; [exact Hrun|].
  set (h' := mk_heap (chromas h) (frames h ++ fs) (dicts h ++ [entries])).
  assert (Hc' : nth_error (chromas h') data = Some c) by exact Hc.
  assert (Hd' : nth_error (dicts h') (length (dicts h)) = Some entries)
    by apply nth_error_snoc.
  intros simpson arg. split.
  - unfold peak_integration.
    rewrite (run_bind_ok _ _ _ _ _ (get_chroma_ok _ _ _ Hc')).
    erewrite run_bind_ok by reflexivity.
    rewrite (run_bind_ok _ _ _ _ _ (get_dict_ok _ _ _ Hd')).
    destruct (keys entries) as [|k ks] eqn:Hks.
    + destruct intervals as [|iv rest]; [congruence|].
      exfalso. apply (proj2 (Hkeys iv)). left. reflexivity.
    + assert (Hin : In k (keys entries)) by (rewrite Hks; left; reflexivity).
      apply dict_get_keys in Hin. destruct Hin as [r Hr].
      apply run_bind_raise. cbn [for_each]. apply run_bind_raise.
      unfold integration_body.
      rewrite (run_bind_ok _ _ _ _ _ (dict_getitem_ok _ _ _ _ _ Hd' Hr)).
      assert (Hf : nth_error (frames h') r
                   = Some (mk_peaks (filter (in_interval k) pre) no_extra))
        by exact (Htab k r Hr).
      rewrite (run_bind_ok _ _ _ _ _ (get_frame_ok _ _ _ Hf)).
      reflexivity.
  - unfold peak_integration.
    rewrite (run_bind_ok _ _ _ _ _ (get_chroma_ok _ _ _ Hc')). reflexivity.
Qed.

Lemma integration_before_limits_raises_witness :
  exists d h',
    peak_finder 0 [(0, 20)] spike_heap = (Ok d, h') /\
    forall simpson arg,
      peak_integration simpson (Some d) 0 arg h' = (Raise IndexError, h') /\
      peak_integration simpson None 0 d h' = (Raise NameError, h').
Proof.
  apply (integration_before_limits_raises spike_heap 0 [(0, 20)] spike_chroma).
  - reflexivity.
  - discriminate.
Defined.

(** [limits_finder] is idempotent: once it has returned, calling it again
    with the same arguments returns the same dictionary and leaves every
    object as it is. *)
Theorem limits_finder_twice (chroma_data peaks_data : nat) (min_slope : Z)
    (h h' : heap) (d : nat) :
  limits_finder chroma_data peaks_data min_slope h = (Ok d, h') ->
  limits_finder chroma_data peaks_data min_slope h' = (Ok d, h').
Proof.
  intros Hrun.
  destruct (limits_finder_in_place _ _ _ _ _ _ Hrun) as (-> & c & entries & Hc & Hd & Hall).
  pose proof (limits_finder_run_same_rows _ _ _ _ _ _ Hrun) as (Hch & Hdi & _).
  assert (Hc' : nth_error (chromas h') chroma_data = Some c) by (rewrite Hch; exact Hc).
  assert (Hd' : nth_error (dicts h') peaks_data = Some entries) by (rewrite Hdi; exact Hd).
  unfold limits_finder.
  rewrite (run_bind_ok _ _ _ _ _ (get_chroma_ok _ _ _ Hc')).
  rewrite (run_bind_ok _ _ _ _ _ (get_dict_ok _ _ _ Hd')).
  destruct (for_each_returns (fun h2 => h2 = h') (fun _ _ => True) (keys entries)
              (limits_body (channel c) (map Z.abs (first_diff c)) min_slope peaks_data))
    with (h := h') as (h2 & Hloop & -> & _).
  - intros key h2 Hkey ->.
    destruct (Hall key Hkey) as (f & Hf & lims & area & Hlims & Hx).
    unfold table_of in Hf. rewrite Hd' in Hf.
    destruct (dict_get entries key) as [r|] eqn:Hr; [|discriminate].
    exists h'. split; [|auto].
    rewrite (limits_body_ok _ _ _ _ _ _ _ _ _ _ Hd' Hr Hf Hlims).
    rewrite Hx. f_equal.
    replace (mk_peaks (pk_rows f) (with_limits (fst lims) (snd lims) area)) with f
      by (destruct f as [rows extra]; cbn [pk_rows pk_extra] in *; subst; reflexivity).
    rewrite (update_same _ _ _ Hf). destruct h'; reflexivity.
  - reflexivity.
  - rewrite (run_bind_ok _ _ _ _ _ Hloop). reflexivity.
Qed.

Lemma limits_finder_twice_witness :
  limits_finder 0 0 5 spike_limited = (Ok 0%nat, spike_limited).
Proof.
  apply (limits_finder_twice 0 0 5 spike_found spike_limited 0).
  vm_compute. reflexivity.
Defined.

(** Each of the two later stages writes its own columns only:
    [limits_finder] keeps the 'Area' column of every table, and
    [peak_integration] keeps the limits columns, also when they raise; and
    the number of tables stays the same. *)
Theorem stages_write_their_own_columns (h : heap) :
  (forall chroma_data peaks_data min_slope,
     let h' := snd (limits_finder chroma_data peaks_data min_slope h) in
     map area_column (frames h') = map area_column (frames h) /\
     length (frames h') = length (frames h)) /\
  (forall simpson g chroma_data arg,
     let h' := snd (peak_integration simpson g chroma_data arg h) in
     map limits_columns (frames h') = map limits_columns (frames h) /\
     length (frames h') = length (frames h)).
Proof.
  split.
  - intros chroma_data peaks_data min_slope. cbv zeta.
    pose proof (limits_finder_same_rows chroma_data peaks_data min_slope h) as (_ & _ & Hrows).
    split; [|apply (f_equal (@length _)) in Hrows; rewrite !length_map in Hrows; exact Hrows].
    unfold limits_finder.
    destruct (get_chroma chroma_data h) as [[c|e] h1] eqn:Hc.
    2:{ rewrite (run_bind_raise _ _ _ _ _ Hc). unfold get_chroma, deref in Hc.
        destruct (nth_error (chromas h) chroma_data); inversion Hc. reflexivity. }
    assert (h1 = h) as ->.
    { unfold get_chroma, deref in Hc.
      destruct (nth_error (chromas h) chroma_data); inversion Hc; reflexivity. }
    rewrite (run_bind_ok _ _ _ _ _ Hc).
    destruct (nth_error (dicts h) peaks_data) as [entries|] eqn:Hd.
    2:{ unfold pbind, get_dict. rewrite Hd. reflexivity. }
    rewrite (run_bind_ok _ _ _ _ _ (get_dict_ok _ _ _ Hd)).
    assert (Hloop : map area_column
              (frames (snd (for_each (keys entries)
                              (limits_body (channel c) (map Z.abs (first_diff c))
                                 min_slope peaks_data) h)))
            = map area_column (frames h)).
    { apply (for_each_invariant
               (fun h2 => map area_column (frames h2) = map area_column (frames h)));
        [|reflexivity].
      intros key h3 _ Hh3.
      destruct (limits_body _ _ _ _ key h3) as [res h4] eqn:Hb; cbn [snd].
      apply limits_body_run in Hb.
      destruct Hb as [[-> _] | (en & r & f & lims & _ & _ & Hf & _ & _ & ->)];
        [exact Hh3|].
      cbn [frames]. rewrite map_update, <- Hh3. apply update_same.
      rewrite nth_error_map, Hf. reflexivity. }
    unfold pbind.
    destruct (for_each (keys entries) _ h) as [[[]|e] h2]; cbn [snd] in *; exact Hloop.
  - intros simpson g chroma_data arg. cbv zeta.
    destruct (peak_integration simpson g chroma_data arg h) as [r h'] eqn:Hrun. cbn [snd].
    split; [exact (peak_integration_keeps_limits _ _ _ _ _ _ _ Hrun)|].
    pose proof (peak_integration_run_same_rows _ _ _ _ _ _ _ Hrun) as (_ & _ & Hrows).
    apply (f_equal (@length _)) in Hrows. rewrite !length_map in Hrows. exact Hrows.
Qed.

(** ** The dictionary of [peak_finder] *)

Lemma dict_set_keys_NoDup {V : Type} (d : list (interval * V)) k v :
  NoDup (keys d) -> NoDup (keys (dict_set d k v)).
Proof.
  unfold keys. induction d as [|[k' v'] d IH]; intros Hnd; cbn [dict_set map fst].
  - constructor; [intros [] | constructor].
  - inversion Hnd as [|? ? Hnotin Hnd']; subst.
    destruct (interval_eqb k k') eqn:E; cbn [map fst].
    + apply interval_eqb_eq in E. subst k'. constructor; assumption.
    + constructor; [|apply IH; exact Hnd'].
      intros Hin. apply Hnotin.
      change (In k' (keys (dict_set d k v))) in Hin.
      apply keys_dict_set in Hin. destruct Hin as [->|Hin]; [|exact Hin].
      rewrite interval_eqb_refl in E. discriminate.
Qed.

Lemma dict_set_values (d : list (interval * nat)) k (r : nat) :
  (forall r', In r' (map snd d) -> (r' < r)%nat) ->
  NoDup (map snd d) ->
  NoDup (map snd (dict_set d k r)) /\
  forall r', In r' (map snd (dict_set d k r)) -> (r' <= r)%nat /\
             (r' = r \/ In r' (map snd d)).
Proof.
  induction d as [|[k' v'] d IH]; intros Hlt Hnd; cbn [dict_set map snd].
  - split; [constructor; [intros [] | constructor]|].
    intros r' [<-|[]]. split; [lia | left; reflexivity].
  - inversion Hnd as [|? ? Hnotin Hnd']; subst.
    destruct (interval_eqb k k') eqn:E; cbn [map snd].
    + split.
      * constructor; [|exact Hnd'].
        intros Hin. specialize (Hlt r (or_intror Hin)). lia.
      * intros r' [<-|Hin]; [split; [lia | left; reflexivity]|].
        split; [specialize (Hlt r' (or_intror Hin)); lia | right; right; exact Hin].
    + destruct (IH (fun r' H => Hlt r' (or_intror H)) Hnd') as [Hnd2 Hall].
      split.
      * constructor; [|exact Hnd2].
        intros Hin. destruct (Hall _ Hin) as [_ [->|Hin']].
        -- specialize (Hlt r (or_introl eq_refl)). lia.
        -- contradiction.
      * intros r' [<-|Hin].
        -- split; [specialize (Hlt v' (or_introl eq_refl)); lia | right; left; reflexivity].
        -- destruct (Hall _ Hin) as [Hle [->|Hin']];
             (split; [exact Hle|]); [left; reflexivity | right; right; exact Hin'].
Qed.

(** The dictionary that [peak_finder] returns has one key for each distinct
    interval given (an interval given twice makes one key), and the tables
    under its keys are separate objects, all made by this call: no table is
    shared between two keys, and none existed before. *)
Theorem peak_finder_tables_are_separate (h : heap) (data : nat)
    (intervals : list interval) (c : chroma) :
  nth_error (chromas h) data = Some c ->
  exists d h' entries,
    peak_finder data intervals h = (Ok d, h') /\
    nth_error (dicts h') d = Some entries /\
    NoDup (keys entries) /\
    (forall k, In k (keys entries) <-> In k intervals) /\
    NoDup (map snd entries) /\
    forall r, In r (map snd entries) ->
      (length (frames h) <= r < length (frames h'))%nat.
Proof.
  intros Hc. destruct (pre_peak_data_total (channel c)) as [pre Hpre].
  destruct (peak_finder_spec h data intervals c pre Hc Hpre)
    as (fs & entries & Hrun & Hkeys & _).
  set (d := length (dicts h)) in *.
  set (body := fun iv : interval =>
         r <~ new_frame (mk_peaks (filter (in_interval iv) pre) no_extra) ;;
         dict_setitem d iv r).
  set (I := fun h2 : heap =>
         (length (frames h) <= length (frames h2))%nat /\
         exists entries2,
           dicts h2 = dicts h ++ [entries2] /\
           NoDup (keys entries2) /\ NoDup (map snd entries2) /\
           forall r, In r (map snd entries2) ->
             (length (frames h) <= r < length (frames h2))%nat).
  assert (Hstep : forall a h2, In a intervals -> I h2 ->
            exists h3, body a h2 = (Ok tt, h3) /\ I h3 /\ True /\
                       forall b : interval, True -> True).
  { intros iv h2 _ (Hlen & entries2 & Hd & Hnk & Hnv & Hrefs).
    assert (Hnth : nth_error (dicts h2) d = Some entries2)
      by (rewrite Hd; apply nth_error_snoc).
    eexists. split.
    - unfold body. erewrite run_bind_ok by (unfold new_frame; reflexivity).
      erewrite dict_setitem_ok by exact Hnth. cbn [chromas frames dicts].
      rewrite Hd. unfold d. rewrite update_snoc. reflexivity.
    - split; [|auto]. unfold I. cbn [frames dicts]. rewrite length_app. cbn [length].
      split; [lia|].
      exists (dict_set entries2 iv (length (frames h2))).
      split; [reflexivity|]. split; [apply dict_set_keys_NoDup; exact Hnk|].
      destruct (dict_set_values entries2 iv (length (frames h2))) as [Hnv' Hall];
        [intros r' Hr'; apply Hrefs in Hr'; lia | exact Hnv |].
      split; [exact Hnv'|].
      intros r Hr. destruct (Hall r Hr) as [Hle [->|Hin]]; [lia|].
      apply Hrefs in Hin. lia. }
  set (h1 := mk_heap (chromas h) (frames h) (dicts h ++ [[]])).
  assert (Hh1 : I h1).
  { split; [reflexivity|]. exists []. cbn [dicts keys map].
    split; [reflexivity|]. split; [constructor|]. split; [constructor|].
    intros r0 []. }
  destruct (for_each_returns I (fun _ _ => True) intervals body Hstep h1 Hh1)
    as (h2 & Hloop & (Hlen & entries2 & Hd2 & Hnk & Hnv & Hrefs) & _).
  assert (Hrun2 : peak_finder data intervals h = (Ok d, h2)).
  { unfold peak_finder.
    rewrite (run_bind_ok _ _ _ _ _ (get_chroma_ok _ _ _ Hc)).
    erewrite run_bind_ok by (unfold lift; rewrite Hpre; reflexivity).
    erewrite run_bind_ok by (unfold new_dict; reflexivity).
    fold d. fold h1. fold body.
    rewrite (run_bind_ok _ _ _ _ _ Hloop). reflexivity. }
  rewrite Hrun in Hrun2. injection Hrun2 as Hh2.
  exists d, h2, entries2.
  split; [rewrite Hrun; f_equal; exact Hh2|].
  assert (Hent : entries2 = entries).
  { rewrite <- Hh2 in Hd2. cbn [dicts] in Hd2.
    apply app_inj_tail in Hd2. destruct Hd2 as [_ Heq]. congruence. }
  subst entries2.
  split; [rewrite Hd2; apply nth_error_snoc|].
  repeat split; try assumption; try apply Hkeys; apply Hrefs; assumption.
Qed.

Lemma peak_finder_tables_are_separate_witness :
  exists d h' entries,
    peak_finder 0 [(0, 20); (11, 30); (0, 20)] spike_heap = (Ok d, h') /\
    nth_error (dicts h') d = Some entries /\
    NoDup (keys entries) /\
    (forall k, In k (keys entries) <-> In k [(0, 20); (11, 30); (0, 20)]) /\
    NoDup (map snd entries) /\
    forall r, In r (map snd entries) ->
      (length (frames spike_heap) <= r < length (frames h'))%nat.
Proof.
  apply (peak_finder_tables_are_separate spike_heap 0 [(0, 20); (11, 30); (0, 20)]
           spike_chroma).
  reflexivity.
Defined.

(** ** The shaded region *)

Lemma skipn_nth (y : list Z) (s : nat) :
  (s < length y)%nat -> skipn s y = nth s y 0 :: skipn (S s) y.
Proof.
  revert s. induction y as [|v y IH]; intros s Hs; cbn [length] in Hs; [lia|].
  destruct s as [|s]; [reflexivity|].
  cbn [skipn nth]. apply IH. lia.
Qed.

Lemma combine_positions (y : list Z) (s k : nat) :
  (s + k <= length y)%nat ->
  combine (map Z.of_nat (seq s k)) (firstn k (skipn s y))
  = map (fun i => (Z.of_nat i, nth i y 0)) (seq s k).
Proof.
  revert s. induction k as [|k IH]; intros s Hs; [reflexivity|].
  rewrite (skipn_nth y s) by lia.
  cbn [seq map firstn combine]. rewrite IH by lia. reflexivity.
Qed.

Lemma range_positions (a b : Z) :
  0 <= a -> range a b = map Z.of_nat (seq (Z.to_nat a) (Z.to_nat (b - a))).
Proof.
  intros Ha. unfold range.
  rewrite <- (Nat.add_0_l (Z.to_nat a)) at 1.
  generalize (Z.to_nat (b - a)) 0%nat. intros k.
  induction k as [|k IH]; intros s; [reflexivity|].
  cbn [seq map]. f_equal; [lia|].
  specialize (IH (S s)). cbn [Nat.add] in IH. exact IH.
Qed.

(** For numeric limits inside the signal the shaded polygon starts at
    [(a, 0)], runs through the [b - a + 1] samples at the positions [a],
    ..., [b], both limits included, and ends at [(b, 0)]: it is drawn over
    the positional slice [signal[a:b+1]]. *)
Theorem shaded_polygon_spans_the_limits (signal : list Z) (a b : Z) :
  0 <= a <= b -> b < len signal ->
  area_polygon signal a b
  = (a, 0) :: map (fun j => (j, nth (Z.to_nat j) signal 0)) (range a (b + 1)) ++ [(b, 0)] /\
  py_slice signal a (b + 1) = slice_incl signal a b /\
  length (slice_incl signal a b) = Z.to_nat (b - a + 1).
Proof.
  intros Hab Hb.
  assert (Hslice : py_slice signal a (b + 1) = slice_incl signal a b).
  { unfold py_slice, slice_incl.
    destruct (Z.ltb_spec a 0); [lia|]. destruct (Z.ltb_spec (b + 1) 0); [lia|].
    rewrite !Z.min_l by lia. reflexivity. }
  split; [|split; [exact Hslice|]].
  - unfold area_polygon. rewrite Hslice. unfold slice_incl.
    rewrite range_positions by lia.
    rewrite combine_positions by (unfold len in Hb; lia).
    rewrite map_map. do 2 f_equal.
    apply map_ext. intros i. rewrite Nat2Z.id. reflexivity.
  - unfold slice_incl. rewrite length_firstn, length_skipn.
    unfold len in Hb. lia.
Qed.

Lemma shaded_polygon_spans_the_limits_witness :
  area_polygon spike 9 13
  = (9, 0) :: map (fun j => (j, nth (Z.to_nat j) spike 0)) (range 9 (13 + 1)) ++ [(13, 0)] /\
  py_slice spike 9 (13 + 1) = slice_incl spike 9 13 /\
  length (slice_incl spike 9 13) = Z.to_nat (13 - 9 + 1).
Proof.
  apply (shaded_polygon_spans_the_limits spike 9 13); [lia | vm_compute; reflexivity].
Defined.

(** ** When the script returns *)

Lemma frame_areas_total (simpson : list Z -> outcome float) (points : list Z)
    (limits_list : list (limit * limit)) :
  (forall lim, In lim limits_list ->
     exists l r a,
       lim = (Num l, Num r) /\
       simpson (filter (fun v => (l <? v) && (v <? r)) points) = Ok a) ->
  exists areas, frame_areas simpson points limits_list = Ok areas.
Proof.
  induction limits_list as [|lim rest IH]; intros Hres.
  - eexists. reflexivity.
  - destruct (Hres lim (or_introl eq_refl)) as (l & r & a & -> & Ha).
    destruct (IH (fun lim' H => Hres lim' (or_intror H))) as [areas Hrest].
    cbn [frame_areas]. unfold select_samples, greater, less. cbn [fst snd bind].
    rewrite (mask_select_and points (fun v => l <? v) (fun v => v <? r)).
    rewrite Ha. cbn [bind]. rewrite Hrest. eexists. reflexivity.
Qed.

(** On a dictionary whose tables carry limits for which the loop over the
    limits returns, [peak_integration] returns. *)
Lemma peak_integration_returns (simpson : list Z -> outcome float)
    (chroma_data arg d : nat) (h : heap) (c : chroma) (entries : list (interval * nat)) :
  nth_error (chromas h) chroma_data = Some c ->
  nth_error (dicts h) d = Some entries ->
  (forall k, In k (keys entries) ->
     exists f li lv, table_of h d k = Some f /\ limits_columns f = Some (li, lv) /\
                     exists areas, frame_areas simpson (channel c) li = Ok areas) ->
  exists h', peak_integration simpson (Some d) chroma_data arg h = (Ok d, h').
Proof.
  intros Hc Hd Htab. unfold peak_integration.
  rewrite (run_bind_ok _ _ _ _ _ (get_chroma_ok _ _ _ Hc)).
  erewrite run_bind_ok by reflexivity.
  rewrite (run_bind_ok _ _ _ _ _ (get_dict_ok _ _ _ Hd)).
  set (I := fun h2 : heap =>
         dicts h2 = dicts h /\
         map limits_columns (frames h2) = map limits_columns (frames h)).
  destruct (for_each_returns I (fun _ _ => True) (keys entries)
              (integration_body simpson (channel c) d))
    with (h := h) as (h' & Hloop & _).
  - intros key h2 Hkey [Hdi Hli].
    destruct (Htab key Hkey) as (f & li & lv & Hf & Hcols & areas & Har).
    assert (Hd2 : nth_error (dicts h2) d = Some entries) by (rewrite Hdi; exact Hd).
    unfold table_of in Hf. rewrite Hd in Hf.
    destruct (dict_get entries key) as [r|] eqn:Hr; [|discriminate].
    assert (Hcol2 : nth_error (map limits_columns (frames h2)) r = Some (Some (li, lv))).
    { rewrite Hli, nth_error_map, Hf. cbn [option_map]. rewrite Hcols. reflexivity. }
    rewrite nth_error_map in Hcol2.
    destruct (nth_error (frames h2) r) as [f2|] eqn:Hf2; [|discriminate].
    cbn [option_map] in Hcol2. injection Hcol2 as Hcol2.
    unfold limits_columns in Hcol2.
    destruct (pk_extra f2) as [|li2 lv2 a2] eqn:Hx2; [discriminate|].
    injection Hcol2 as -> ->.
    eexists. split.
    { apply (integration_body_ok simpson _ _ _ _ _ _ _ _ _ _ areas Hd2 Hr Hf2 Hx2).
      exact Har. }
    split; [|auto]. split; [exact Hdi|].
    cbn [frames]. rewrite map_update, <- Hli. apply update_same.
    rewrite nth_error_map, Hf2. unfold limits_columns. cbn [pk_extra option_map].
    rewrite Hx2. reflexivity.
  - split; reflexivity.
  - exists h'. rewrite (run_bind_ok _ _ _ _ _ Hloop). reflexivity.
Qed.

Lemma frame_limits_entries (y dy : list Z) (min_slope : Z) (peak_idx : list Z)
    (lims : list (limit * limit) * list (limit * limit)) (li : limit * limit) :
  frame_limits y dy min_slope peak_idx = Ok lims -> In li (fst lims) ->
  exists p lim, In p peak_idx /\ peak_limits y dy min_slope p = Ok lim /\ li = fst lim.
Proof.
  intros Hrun Hin. apply In_nth_error in Hin. destruct Hin as [i Hi].
  destruct (frame_limits_rows _ _ _ _ _ Hrun) as (Hlen & _ & Hnth).
  assert (Hlt : (i < length peak_idx)%nat).
  { rewrite <- Hlen. apply nth_error_Some. congruence. }
  destruct (nth_error peak_idx i) as [p|] eqn:Hp;
    [|apply nth_error_None in Hp; lia].
  destruct (Hnth i p Hp) as (lim & Hlim & Hli & _).
  exists p, lim. split; [apply nth_error_In in Hp; exact Hp|].
  split; [exact Hlim | congruence].
Qed.

(** The script returns as soon as every detected peak that lies strictly
    inside an interval has both limits resolved and the quadrature routine
    returns on the samples selected for that peak. *)
Theorem script_returns_when_all_limits_resolved
    (simpson : list Z -> outcome float) (y : list Z)
    (intervals : list interval) (h : heap) (pre : list peak) :
  y <> [] ->
  pre_peak_data y = Ok pre ->
  (forall iv pk, In iv intervals -> In pk pre -> fst iv < index pk < snd iv ->
     exists l r lv a,
       peak_limits y (map Z.abs (first_derivative y)) 5 (index pk)
       = Ok ((Num l, Num r), lv) /\
       simpson (filter (fun v => (l <? v) && (v <? r)) y) = Ok a) ->
  exists h', script simpson y intervals h = (Ok (length (dicts h)), h').
Proof.
  intros Hne Hpre Hres.
  destruct (before_integration_returns y intervals 5 h Hne)
    as (pre' & h3 & Hpre' & Hrun3 & Hc3 & (entries & Hd3 & Hkeys) & Htab).
  rewrite Hpre in Hpre'. injection Hpre' as <-.
  rewrite (script_run simpson y intervals h _ _ Hne Hrun3).
  apply (peak_integration_returns simpson _ _ _ h3 _ entries Hc3 Hd3).
  intros k Hk. apply Hkeys in Hk.
  destruct (Htab k Hk) as (f & Hf & Hrows & lims & a & Hlims & Hx).
  exists f, (fst lims), (snd lims).
  split; [exact Hf|]. split; [unfold limits_columns; rewrite Hx; reflexivity|].
  apply frame_areas_total.
  intros li Hli.
  destruct (frame_limits_entries _ _ _ _ _ _ Hlims Hli) as (p & lim & Hp & Hlim & ->).
  rewrite Hrows in Hp. apply in_map_iff in Hp. destruct Hp as (pk & <- & Hpk).
  apply filter_In in Hpk. destruct Hpk as [Hpk Hin].
  apply in_interval_spec in Hin.
  destruct (Hres k pk Hk Hpk Hin) as (l & r & lv & ar & Hlim' & Har).
  rewrite Hlim in Hlim'. injection Hlim' as ->. cbn [fst channel].
  exists l, r, ar. split; [reflexivity | exact Har].
Qed.

Lemma script_returns_when_all_limits_resolved_witness :
  exists h',
    script (fun sel => match sel with
                       | [] => Raise IndexError
                       | _ :: _ => Ok PrimFloat.zero
                       end)
      spike [(0, 20)] empty_heap
    = (Ok (length (dicts empty_heap)), h').
Proof.
  apply (script_returns_when_all_limits_resolved _ spike [(0, 20)] empty_heap [(11, 5000)]).
  - discriminate.
  - reflexivity.
  - intros iv pk [<- | []] [<- | []] _.
    exists 5, 16, (Num 10, Num 10), PrimFloat.zero. split; reflexivity.
Defined.

Example area_polygon_spike :
  area_polygon spike 9 13
  = [(9, 0); (9, 10); (10, 2000); (11, 5000); (12, 2000); (13, 10); (13, 0)].
Proof. reflexivity. Qed.
